(** * ConfigLoader (src/loader.ts): a shallow embedding and its properties

    The class [ConfigLoader] keeps two private fields: the runtime
    descriptor computed by the constructor and the environment cache
    [#envCache], a plain object used as a map from names to values.  Its
    methods read the host's globals ([process], [import.meta], [Deno],
    [window], [globalThis.__ENV__]); here those globals are gathered in a
    record [world] that every method receives explicitly, since the host
    may change them between two calls.

    Conventions of the embedding:
    - a string is a sequence of 8-bit code units (the Latin-1 range of
      JavaScript's UTF-16 code units);
    - an environment value is [undefined], a boolean or a string (numbers
      and nested objects as environment values are left out);
    - an object used as a map is a [gmap] of its own properties; names
      inherited from [Object.prototype] are not configuration keys;
    - an exception is a value of type [thrown]; every method runs in the
      monad [M] that threads the instance's state and stops at a throw. *)

From Stdlib Require Import ZArith NArith Ascii String.
From stdpp Require Import base option list gmap strings.

Local Open Scope string_scope.
Set Warnings "-register-all".

(** ** Host language: values, exceptions, outcomes *)

Module Js.

Inductive jsval : Type :=
  | JUndefined
  | JBool (b : bool)
  | JStr (s : string).

Definition is_undefined (v : jsval) : bool :=
  match v with JUndefined => true | _ => false end.

(** ToBoolean on a string: only the empty string is falsy. *)
Definition truthy_string (s : string) : bool :=
  match s with EmptyString => false | String _ _ => true end.

(** ToString, as used by template literals. *)
Definition to_string (v : jsval) : string :=
  match v with
  | JUndefined => "undefined"
  | JBool true => "true"
  | JBool false => "false"
  | JStr s => s
  end.

(** What a [throw] carries: an [Error] instance, with its message and its
    [cause] property when it has one, or any other value. *)
Inductive thrown : Type :=
  | ErrorObj (message : string) (cause : option thrown)
  | ThrownVal (v : jsval).

(** [new Error(message)]. *)
Definition new_Error (message : string) : thrown := ErrorObj message None.

(** [new Error(message, options)] (ECMA-262, InstallErrorCause): the new
    error gets a [cause] only when [options] is an object that has a
    property named [cause], and then the cause is [options.cause]. *)
Definition new_Error_with (message : string) (options : thrown) : thrown :=
  match options with
  | ErrorObj _ (Some c) => ErrorObj message (Some c)
  | ErrorObj _ None => ErrorObj message None
  | ThrownVal _ => ErrorObj message None
  end.

Definition error_message (e : thrown) : option string :=
  match e with ErrorObj m _ => Some m | ThrownVal _ => None end.

Definition error_cause (e : thrown) : option thrown :=
  match e with ErrorObj _ c => c | ThrownVal _ => None end.

Inductive outcome (A : Type) : Type :=
  | Ok (a : A)
  | Throw (e : thrown).
Arguments Ok {A} a.
Arguments Throw {A} e.

(** An object read as an environment: a plain object with its own
    properties, or an exotic one (a proxy, an object with throwing
    accessors) whose reads throw. *)
Inductive env_object : Type :=
  | Plain (props : gmap string jsval)
  | Hostile (e : thrown).

(** [key in obj]. *)
Definition has_property (obj : env_object) (key : string) : outcome bool :=
  match obj with
  | Plain props => Ok (bool_decide (is_Some (props !! key)))
  | Hostile e => Throw e
  end.

(** [obj[key]]. *)
Definition get_property (obj : env_object) (key : string) : outcome jsval :=
  match obj with
  | Plain props => Ok (default JUndefined (props !! key))
  | Hostile e => Throw e
  end.

(** The own enumerable properties that [Object.assign] copies. *)
Definition own_properties (obj : env_object) : outcome (gmap string jsval) :=
  match obj with
  | Plain props => Ok props
  | Hostile e => Throw e
  end.

End Js.
Export Js.

(** ** Host language: the numeric coercion [Number(value)]

    ECMA-262, StringToNumber: the string is parsed as a
    StringNumericLiteral, that is optional white space around an optional
    StrNumericLiteral; a string that does not parse gives NaN and white
    space alone gives +0.  A finite result is kept as the mathematical
    value of the literal, sign, decimal digits and power of ten, before it
    is rounded to a double. *)

Module JsNumber.

Inductive jsnumber : Type :=
  | NaN
  | Infinite (negative : bool)
  | Finite (negative : bool) (digits : N) (exponent : Z).

Definition zero : jsnumber := Finite false 0 0.

(** StrWhiteSpaceChar among the 8-bit code units: TAB, LF, VT, FF, CR,
    SP and NBSP. *)
Definition is_StrWhiteSpaceChar (c : ascii) : bool :=
  let n := N_of_ascii c in
  ((9 <=? n) && (n <=? 13) || (n =? 32) || (n =? 160))%N.

Fixpoint drop_StrWhiteSpace (l : list ascii) : list ascii :=
  match l with
  | c :: r => if is_StrWhiteSpaceChar c then drop_StrWhiteSpace r else l
  | [] => []
  end.

Definition trim (l : list ascii) : list ascii :=
  rev (drop_StrWhiteSpace (rev (drop_StrWhiteSpace l))).

(** The value of a digit in [base], for bases up to sixteen. *)
Definition digit_value (base : N) (c : ascii) : option N :=
  let n := N_of_ascii c in
  let d :=
    (if (48 <=? n) && (n <=? 57) then Some (n - 48)
     else if (97 <=? n) && (n <=? 102) then Some (n - 87)
     else if (65 <=? n) && (n <=? 70) then Some (n - 55)
     else None)%N in
  match d with
  | Some v => if (v <? base)%N then Some v else None
  | None => None
  end.

(** Reads the longest run of digits at the head of [l]: the value
    accumulated onto [acc], how many digits were read, and what is left. *)
Fixpoint read_digits (base : N) (l : list ascii) (acc : N) (count : nat)
    : N * nat * list ascii :=
  match l with
  | c :: r =>
      match digit_value base c with
      | Some d => read_digits base r (base * acc + d)%N (S count)
      | None => (acc, count, l)
      end
  | [] => (acc, count, [])
  end.

(** ExponentPart, optional, up to the end of the literal. *)
Definition parse_exponent (l : list ascii) : option Z :=
  match l with
  | [] => Some 0%Z
  | c :: r =>
      if Ascii.eqb c "e" || Ascii.eqb c "E" then
        let '(negative, r1) :=
          match r with
          | s :: r1 =>
              if Ascii.eqb s "+" then (false, r1)
              else if Ascii.eqb s "-" then (true, r1)
              else (false, r)
          | [] => (false, r)
          end in
        match read_digits 10 r1 0 0 with
        | (v, S _, []) => Some (if negative then (- Z.of_N v)%Z else Z.of_N v)
        | _ => None
        end
      else None
  end.

(** StrUnsignedDecimalLiteral. *)
Definition parse_unsigned_decimal (negative : bool) (l : list ascii) : jsnumber :=
  if bool_decide (l = list_ascii_of_string "Infinity") then Infinite negative
  else
    let '(int_value, int_count, r) := read_digits 10 l 0 0 in
    match r with
    | c :: r1 =>
        if Ascii.eqb c "." then
          let '(value, frac_count, r2) := read_digits 10 r1 int_value 0 in
          if Nat.eqb int_count 0 && Nat.eqb frac_count 0 then NaN
          else
            match parse_exponent r2 with
            | Some e => Finite negative value (e - Z.of_nat frac_count)
            | None => NaN
            end
        else if Nat.eqb int_count 0 then NaN
        else
          match parse_exponent r with
          | Some e => Finite negative int_value e
          | None => NaN
          end
    | [] => if Nat.eqb int_count 0 then NaN else Finite negative int_value 0
    end.

(** NonDecimalIntegerLiteral after its two-character prefix. *)
Definition parse_non_decimal (base : N) (l : list ascii) : jsnumber :=
  match read_digits base l 0 0 with
  | (v, S _, []) => Finite false v 0
  | _ => NaN
  end.

(** StrNumericLiteral. *)
Definition parse_StrNumericLiteral (l : list ascii) : jsnumber :=
  match l with
  | c0 :: c1 :: r =>
      if Ascii.eqb c0 "0" && (Ascii.eqb c1 "x" || Ascii.eqb c1 "X")
      then parse_non_decimal 16 r
      else if Ascii.eqb c0 "0" && (Ascii.eqb c1 "o" || Ascii.eqb c1 "O")
      then parse_non_decimal 8 r
      else if Ascii.eqb c0 "0" && (Ascii.eqb c1 "b" || Ascii.eqb c1 "B")
      then parse_non_decimal 2 r
      else if Ascii.eqb c0 "+" then parse_unsigned_decimal false (c1 :: r)
      else if Ascii.eqb c0 "-" then parse_unsigned_decimal true (c1 :: r)
      else parse_unsigned_decimal false l
  | _ => parse_unsigned_decimal false l
  end.

Definition StringToNumber (s : string) : jsnumber :=
  match trim (list_ascii_of_string s) with
  | [] => zero
  | t => parse_StrNumericLiteral t
  end.

(** [Number(value)], that is ToNumber. *)
Definition Number (value : jsval) : jsnumber :=
  match value with
  | JUndefined => NaN
  | JBool true => Finite false 1 0
  | JBool false => zero
  | JStr s => StringToNumber s
  end.

(** [isNaN(num)] on a number. *)
Definition isNaN (num : jsnumber) : bool :=
  match num with NaN => true | _ => false end.

End JsNumber.
Export JsNumber.

(** ** The host's globals *)

Record process_obj : Type := { process_env : option env_object }.

Record import_meta_obj : Type := { meta_env : option env_object }.

(** [Deno.env]: the bulk export and the single-name read fail
    independently (a permission may cover some names only). *)
Record deno_obj : Type := {
  deno_env_toObject : outcome (gmap string jsval);
  deno_env_get : string -> outcome jsval
}.

Record window_obj : Type := {
  window___ENV__ : option env_object;
  window_env : option env_object;
  window_process : option process_obj;
  window___webpack_require__ : bool
}.

Record world : Type := {
  g_process : option process_obj;
  g_import_meta : option import_meta_obj;
  g_importMeta : bool;
  g_Deno : option deno_obj;
  g_Bun : bool;
  g_window : option window_obj;
  g___ENV__ : option env_object
}.

(** ** The instance and the monad of its methods *)

Record RuntimeDetection : Type := {
  isNode : bool;
  isBrowser : bool;
  isVite : bool;
  isWebpack : bool;
  isDeno : bool;
  isBun : bool
}.

(** Runtime descriptors are objects: they live in [heap] and are named by
    their address.  [runtimeDetection] is the private field holding the
    address of the instance's own descriptor. *)
Record state : Type := {
  heap : list RuntimeDetection;
  runtimeDetection : nat;
  envCache : gmap string jsval
}.

Definition M (A : Type) : Type := state -> outcome A * state.

Definition ret {A} (a : A) : M A := fun s => (Ok a, s).

Definition throw {A} (e : thrown) : M A := fun s => (Throw e, s).

Definition bind {A B} (m : M A) (k : A -> M B) : M B := fun s =>
  match m s with
  | (Ok a, s') => k a s'
  | (Throw e, s') => (Throw e, s')
  end.

Notation "'let*' x ':=' m 'in' k" := (bind m (fun x => k))
  (at level 10, x name, m at level 100, k at level 200).
Notation "m ';;' k" := (bind m (fun _ => k))
  (at level 100, k at level 200, right associativity).

(** [try { m } catch (e) { handler e }]. *)
Definition try_catch {A} (m : M A) (handler : thrown -> M A) : M A := fun s =>
  match m s with
  | (Ok a, s') => (Ok a, s')
  | (Throw e, s') => handler e s'
  end.

(** A read of the host that may throw, run inside a method. *)
Definition host {A} (r : outcome A) : M A := fun s => (r, s).

Definition read_envCache : M (gmap string jsval) := fun s => (Ok (envCache s), s).

Definition write_envCache (c : gmap string jsval) : M unit := fun s =>
  (Ok tt, {| heap := heap s; runtimeDetection := runtimeDetection s; envCache := c |}).

(** [Object.assign(this.#envCache, source)]: every own property of the
    source is written over the cache. *)
Definition assign_envCache (source : env_object) : M unit :=
  let* props := host (own_properties source) in
  let* c := read_envCache in
  write_envCache (props ∪ c).

(** [this.#envCache[key] = value]. *)
Definition store_envCache (key : string) (value : jsval) : M unit :=
  let* c := read_envCache in
  write_envCache (<[key := value]> c).

Definition when_some {A} (o : option A) (f : A -> M unit) : M unit :=
  match o with
  | Some a => f a
  | None => ret tt
  end.

(** ** ConfigLoader *)

(** [#detectRuntime]. *)
Definition detectRuntime (w : world) : RuntimeDetection :=
  let hasProcess := bool_decide (is_Some (g_process w)) in
  let hasWindow := bool_decide (is_Some (g_window w)) in
  let hasImportMeta := g_importMeta w || bool_decide (is_Some (g_import_meta w)) in
  let hasDeno := bool_decide (is_Some (g_Deno w)) in
  let hasBun := g_Bun w in
  {| isNode := hasProcess && negb hasWindow && negb hasDeno && negb hasBun;
     isBrowser := hasWindow;
     isVite := hasImportMeta && hasWindow;
     isWebpack :=
       hasWindow &&
       match g_window w with
       | Some win => window___webpack_require__ win
       | None => false
       end;
     isDeno := hasDeno;
     isBun := hasBun |}.

(** [typeof process !== 'undefined' && process.env], as a guard: the
    environment object when the guard passes. *)
Definition process_dot_env (w : world) : option env_object :=
  match g_process w with
  | Some p => process_env p
  | None => None
  end.

(** [typeof import.meta !== 'undefined' && import.meta.env]. *)
Definition import_meta_dot_env (w : world) : option env_object :=
  match g_import_meta w with
  | Some im => meta_env im
  | None => None
  end.

(** [window.__ENV__ || window.env || window.process?.env]. *)
Definition windowEnv (win : window_obj) : option env_object :=
  match window___ENV__ win with
  | Some e => Some e
  | None =>
      match window_env win with
      | Some e => Some e
      | None =>
          match window_process win with
          | Some p => process_env p
          | None => None
          end
      end
  end.

(** [#loadEnvironmentVariables]. *)
Definition loadEnvironmentVariables (w : world) : M unit :=
  when_some (process_dot_env w) assign_envCache ;;
  when_some (import_meta_dot_env w) assign_envCache ;;
  when_some (g_Deno w) (fun deno =>
    try_catch
      (let* denoEnv := host (deno_env_toObject deno) in
       assign_envCache (Plain denoEnv))
      (fun _ => ret tt)) ;;
  when_some (g_window w) (fun win =>
    when_some (windowEnv win) assign_envCache) ;;
  when_some (g___ENV__ w) assign_envCache.

(** The three re-queries of [#tryGetValue].  Each returns [Some value]
    when the method returns [value] at that point and [None] when control
    falls through to the next one. *)
Definition tryProcessEnv (w : world) (key : string) : M (option jsval) :=
  match process_dot_env w with
  | Some penv =>
      let* present := host (has_property penv key) in
      if (present : bool) then
        let* value := host (get_property penv key) in
        if is_undefined value then ret None
        else store_envCache key value ;; ret (Some value)
      else ret None
  | None => ret None
  end.

Definition tryImportMetaEnv (w : world) (key : string) : M (option jsval) :=
  match import_meta_dot_env w with
  | Some menv =>
      let* value := host (get_property menv key) in
      if is_undefined value then ret None
      else store_envCache key value ;; ret (Some value)
  | None => ret None
  end.

Definition tryDenoEnv (w : world) (key : string) : M (option jsval) :=
  match g_Deno w with
  | Some deno =>
      try_catch
        (let* value := host (deno_env_get deno key) in
         if is_undefined value then ret None
         else store_envCache key value ;; ret (Some value))
        (fun _ => ret None)
  | None => ret None
  end.

(** [step] returned, or control goes on with [rest]. *)
Definition or_else (step : M (option jsval)) (rest : M jsval) : M jsval :=
  let* r := step in
  match r with
  | Some value => ret value
  | None => rest
  end.

(** [#tryGetValue]. *)
Definition tryGetValue (w : world) (key : string) : M jsval :=
  let* cache := read_envCache in
  match cache !! key with
  | Some value => ret value
  | None =>
      or_else (tryProcessEnv w key)
        (or_else (tryImportMetaEnv w key)
           (or_else (tryDenoEnv w key)
              (ret JUndefined)))
  end.

Record ConfigOptions : Type := { prefix : option string }.

(** The default of the parameter [options = {}]. *)
Definition no_options : ConfigOptions := {| prefix := None |}.

(** [const { prefix = '' } = options]. *)
Definition prefix_or_empty (options : ConfigOptions) : string :=
  default "" (prefix options).

(** [prefix ? `${prefix}${key}` : key]. *)
Definition fullKey (key : string) (options : ConfigOptions) : string :=
  let prefix := prefix_or_empty options in
  if truthy_string prefix then prefix +:+ key else key.

Definition commonPrefixes : list string :=
  ["VITE_"; "REACT_APP_"; "VUE_APP_"; "NEXT_PUBLIC_"].

(** The [for ... of] loop of [get], entered with the current [value]. *)
Fixpoint tryCommonPrefixes (w : world) (key : string)
    (prefixes : list string) (value : jsval) : M jsval :=
  match prefixes with
  | [] => ret value
  | commonPrefix :: rest =>
      let* value := tryGetValue w (commonPrefix +:+ key) in
      if is_undefined value then tryCommonPrefixes w key rest value
      else ret value
  end.

(** [get]. *)
Definition get (w : world) (key : string) (options : ConfigOptions) : M jsval :=
  let prefix := prefix_or_empty options in
  let* value := tryGetValue w (fullKey key options) in
  if is_undefined value && negb (truthy_string prefix)
  then tryCommonPrefixes w key commonPrefixes value
  else ret value.

Definition dquote : string := String "034"%char EmptyString.

(** [getTransformed]: [None] is the method's [undefined]. *)
Definition getTransformed {T} (w : world) (key : string)
    (transform : jsval -> outcome T) (options : ConfigOptions) : M (option T) :=
  let* value := get w key options in
  if is_undefined value then ret None
  else
    try_catch
      (let* t := host (transform value) in ret (Some t))
      (fun e =>
         throw (new_Error_with
                  ("Failed to transform config value for key " +:+ dquote +:+
                   fullKey key options +:+ dquote +:+ ":")
                  e)).

(** [getRequired]. *)
Definition getRequired (w : world) (key : string) (options : ConfigOptions) : M jsval :=
  let* value := get w key options in
  if is_undefined value then
    throw (new_Error
             ("Required config value " +:+ dquote +:+ key +:+ dquote +:+
              " is not defined"))
  else ret value.

(** [refresh]. *)
Definition refresh (w : world) : M unit :=
  write_envCache ∅ ;;
  loadEnvironmentVariables w.

(** [getRuntime]: the spread allocates a new object with the same fields.
    The field always names a live object (see [wf_state] below), so the
    second branch is never taken. *)
Definition getRuntime : M nat := fun s =>
  match heap s !! runtimeDetection s with
  | Some r =>
      (Ok (length (heap s)),
       {| heap := heap s ++ [r];
          runtimeDetection := runtimeDetection s;
          envCache := envCache s |})
  | None => (Throw (new_Error "dangling runtime descriptor"), s)
  end.

(** [set]. *)
Definition set (key : string) (value : string) : M unit :=
  store_envCache key (JStr value).

(** [has]. *)
Definition has (w : world) (key : string) : M bool :=
  let* value := get w key no_options in
  ret (negb (is_undefined value)).

(** [new ConfigLoader()], run on a heap [h]: the field initialiser, then
    the constructor's two statements. *)
Definition new_ConfigLoader (w : world) (h : list RuntimeDetection) : outcome unit * state :=
  loadEnvironmentVariables w
    {| heap := h ++ [detectRuntime w];
       runtimeDetection := length h;
       envCache := ∅ |}.

(** A caller writing into a descriptor it holds, [obj.flag = ...]. *)
Definition caller_writes (address : nat) (r : RuntimeDetection) (s : state) : state :=
  {| heap := <[address := r]> (heap s);
     runtimeDetection := runtimeDetection s;
     envCache := envCache s |}.

(** The arrow function that [getNumber] passes as the transform. *)
Definition getNumber_transform (value : jsval) : outcome jsnumber :=
  let num := Number value in
  if isNaN num then
    Throw (new_Error
             ("Value " +:+ dquote +:+ to_string value +:+ dquote +:+
              " is not a valid number"))
  else Ok num.

(** [getNumber]. *)
Definition getNumber (w : world) (key : string) (options : ConfigOptions)
    : M (option jsnumber) :=
  getTransformed w key getNumber_transform options.

(** ** The other accessors *)

(** [getWithDefault]: the cast [value as unknown as T] does nothing at run
    time, so what comes back is either the raw value found or the default
    as given. *)
Definition getWithDefault {T} (w : world) (key : string) (defaultValue : T)
    (options : ConfigOptions) : M (jsval + T) :=
  let* value := get w key options in
  ret (if is_undefined value then inr defaultValue else inl value).

(** A [TypeError] raised by the engine; the wording of its message is the
    engine's own. *)
Definition TypeError (message : string) : thrown := ErrorObj message None.

(** [String.prototype.toLowerCase] on 8-bit code units: the letters A to Z
    and the upper-case letters of the Latin-1 supplement (all of U+00C0 to
    U+00DE but the multiplication sign) move up by 32. *)
Definition toLowerCase_unit (c : ascii) : ascii :=
  let n := N_of_ascii c in
  if ((65 <=? n) && (n <=? 90) ||
      (192 <=? n) && (n <=? 222) && negb (n =? 215))%N
  then ascii_of_N (n + 32)
  else c.

Fixpoint toLowerCase (s : string) : string :=
  match s with
  | EmptyString => EmptyString
  | String c rest => String (toLowerCase_unit c) (toLowerCase rest)
  end.

(** The arrow function that [getBoolean] passes as the transform.  On a
    value that is not a string the method call [value.toLowerCase()]
    raises a [TypeError]. *)
Definition getBoolean_transform (value : jsval) : outcome bool :=
  match value with
  | JStr s =>
      let lower := toLowerCase s in
      Ok (String.eqb lower "true" || String.eqb lower "1" ||
          String.eqb lower "yes" || String.eqb lower "on")
  | JBool _ => Throw (TypeError "value.toLowerCase is not a function")
  | JUndefined =>
      Throw (TypeError "Cannot read properties of undefined (reading 'toLowerCase')")
  end.

(** [getBoolean]. *)
Definition getBoolean (w : world) (key : string) (options : ConfigOptions)
    : M (option bool) :=
  getTransformed w key getBoolean_transform options.

(** [key.startsWith(search)]. *)
Definition startsWith (key search : string) : bool := String.prefix search key.

(** The test [!prefix || key.startsWith(prefix)] of [getAll]. *)
Definition getAll_keeps (prefix : option string) (key : string) : bool :=
  match prefix with
  | None => true
  | Some p => negb (truthy_string p) || startsWith key p
  end.

(** [getAll]: a new object with the entries of the cache that pass the
    test. *)
Definition getAll (prefix : option string) : M (gmap string jsval) :=
  let* cache := read_envCache in
  ret (filter (fun entry => getAll_keeps prefix (fst entry) = true) cache).

(** ** Vocabulary of the statements *)

Definition with_envCache (c : gmap string jsval) (s : state) : state :=
  {| heap := heap s; runtimeDetection := runtimeDetection s; envCache := c |}.

(** The state once [value] has been cached under [key]. *)
Definition with_cached (key : string) (value : jsval) (s : state) : state :=
  with_envCache (<[key := value]> (envCache s)) s.

(** The names [get] tries when no prefix is in force: the key itself,
    then the key under each common prefix. *)
Definition candidates (key : string) : list string :=
  key :: ((fun commonPrefix => commonPrefix +:+ key) <$> commonPrefixes).

(** The resolution of [get] in the words of the specification: direct
    lookups of the given names in turn, stopping at the first hit, and
    not-found when there is none. *)
Fixpoint first_hit (w : world) (names : list string) : M jsval :=
  match names with
  | [] => ret JUndefined
  | name :: rest =>
      let* value := tryGetValue w name in
      if is_undefined value then first_hit w rest else ret value
  end.

(** A guarded source that is absent, or a plain object without a defined
    value for [key]. *)
Definition readable_lacks (source : option env_object) (key : string) : Prop :=
  match source with
  | None => True
  | Some (Plain props) => default JUndefined (props !! key) = JUndefined
  | Some (Hostile _) => False
  end.

(** [Deno] is absent, or [Deno.env.get(key)] throws or gives [undefined]. *)
Definition deno_lacks (deno : option deno_obj) (key : string) : Prop :=
  match deno with
  | None => True
  | Some d =>
      match deno_env_get d key with
      | Ok value => value = JUndefined
      | Throw _ => True
      end
  end.

(** None of the three sources that [#tryGetValue] re-queries has [key]. *)
Definition requery_lacks (w : world) (key : string) : Prop :=
  readable_lacks (process_dot_env w) key /\
  readable_lacks (import_meta_dot_env w) key /\
  deno_lacks (g_Deno w) key.

(** What a guarded source contributes to the merge. *)
Definition props_of (source : option env_object) : gmap string jsval :=
  match source with
  | Some (Plain props) => props
  | _ => ∅
  end.

Definition deno_props (deno : option deno_obj) : gmap string jsval :=
  match deno with
  | Some d =>
      match deno_env_toObject d with
      | Ok props => props
      | Throw _ => ∅
      end
  | None => ∅
  end.

Definition window_props (w : world) : gmap string jsval :=
  match g_window w with
  | Some win => props_of (windowEnv win)
  | None => ∅
  end.

(** The merge of the five sources in the words of the specification: the
    union is left-biased, so a source listed earlier here, that is later
    in the loading order, wins. *)
Definition merged_sources (w : world) : gmap string jsval :=
  props_of (g___ENV__ w) ∪
  (window_props w ∪
   (deno_props (g_Deno w) ∪
    (props_of (import_meta_dot_env w) ∪
     props_of (process_dot_env w)))).

(** No source of the merge is an object whose reads throw; [Deno] is not
    constrained. *)
Definition readable (source : option env_object) : Prop :=
  match source with
  | Some (Hostile _) => False
  | _ => True
  end.

Definition other_sources_readable (w : world) : Prop :=
  readable (process_dot_env w) /\
  readable (import_meta_dot_env w) /\
  readable (match g_window w with Some win => windowEnv win | None => None end) /\
  readable (g___ENV__ w).



(** The field [#runtimeDetection] names a live object. *)
Definition wf_state (s : state) : Prop :=
  is_Some (heap s !! runtimeDetection s).

(** Calls a client may make between a [set] and the next [refresh]; the
    host's globals may differ from one call to the next. *)
Inductive call : Type :=
  | CallGet (w : world) (key : string) (options : ConfigOptions)
  | CallHas (w : world) (key : string)
  | CallGetRequired (w : world) (key : string) (options : ConfigOptions)
  | CallGetNumber (w : world) (key : string) (options : ConfigOptions)
  | CallGetTransformed (w : world) (key : string)
      (transform : jsval -> outcome jsval) (options : ConfigOptions)
  | CallSet (key : string) (value : string)
  | CallGetRuntime.

(** The state a call leaves behind, whether it returns or throws. *)
Definition run_call (c : call) (s : state) : state :=
  match c with
  | CallGet w key options => snd (get w key options s)
  | CallHas w key => snd (has w key s)
  | CallGetRequired w key options => snd (getRequired w key options s)
  | CallGetNumber w key options => snd (getNumber w key options s)
  | CallGetTransformed w key transform options =>
      snd (getTransformed w key transform options s)
  | CallSet key value => snd (set key value s)
  | CallGetRuntime => snd (getRuntime s)
  end.



(** What a direct lookup of [key] may do to the state: nothing, or cache
    under [key] the defined value it returns. *)
Definition lookup_effect (key : string) (s : state) (r : outcome jsval)
    (s' : state) : Prop :=
  s' = s \/
  exists v, r = Ok v /\ v <> JUndefined /\ s' = with_cached key v s.

(** The same for one of the three re-queries, which either falls through
    or returns. *)
Definition step_effect (key : string) (s : state) (r : outcome (option jsval))
    (s' : state) : Prop :=
  (s' = s /\ forall v, r <> Ok (Some v)) \/
  exists v, r = Ok (Some v) /\ v <> JUndefined /\ s' = with_cached key v s.

(** The instance's own fields other than the cache are untouched and no
    cached entry is lost or changed. *)
Definition cache_grows (s s' : state) : Prop :=
  heap s' = heap s /\
  runtimeDetection s' = runtimeDetection s /\
  envCache s ⊆ envCache s'.

(** Whatever a method running [m] returns or throws, it leaves a state
    that [cache_grows] relates to the one it started from. *)
Definition grows {A} (m : M A) : Prop :=
  forall s r s', m s = (r, s') -> cache_grows s s'.

(** ** Sample hosts *)

Definition empty_world : world :=
  {| g_process := None; g_import_meta := None; g_importMeta := false;
     g_Deno := None; g_Bun := false; g_window := None; g___ENV__ := None |}.

(** Node.js with the given [process.env]. *)
Definition node_world (env : env_object) : world :=
  {| g_process := Some {| process_env := Some env |};
     g_import_meta := Some {| meta_env := None |};
     g_importMeta := false;
     g_Deno := None; g_Bun := false; g_window := None; g___ENV__ := None |}.

Definition vite_api_url : gmap string jsval :=
  {[ "VITE_API_URL" := JStr "foo" ]}.

(** Node.js started with [VITE_API_URL=foo], and an instance whose cache
    holds that environment. *)
Definition vite_world : world := node_world (Plain vite_api_url).

Definition vite_state : state :=
  {| heap := [detectRuntime vite_world]; runtimeDetection := 0;
     envCache := vite_api_url |}.

Definition permission_denied : thrown := new_Error "PermissionDenied".

(** Deno run without the permission to read the environment: [Deno.env]
    throws, and so does the enumeration of the [process.env] that its Node
    compatibility layer provides. *)
Definition deno_denied_world : world :=
  {| g_process := Some {| process_env := Some (Hostile permission_denied) |};
     g_import_meta := Some {| meta_env := None |};
     g_importMeta := false;
     g_Deno := Some {| deno_env_toObject := Throw permission_denied;
                        deno_env_get := fun _ => Throw permission_denied |};
     g_Bun := false; g_window := None; g___ENV__ := None |}.

(** A host in which every source exists, each defining one name fewer
    than the one before it in the loading order; [Deno.env.get] moreover
    answers for [LATE], a variable set after the bulk export was taken. *)
Definition layered_world : world :=
  {| g_process := Some {| process_env :=
       Some (Plain {[ "A" := JStr "process"; "B" := JStr "process";
                      "C" := JStr "process"; "D" := JStr "process";
                      "E" := JStr "process" ]}) |};
     g_import_meta := Some {| meta_env :=
       Some (Plain {[ "B" := JStr "meta"; "C" := JStr "meta";
                      "D" := JStr "meta"; "E" := JStr "meta" ]}) |};
     g_importMeta := false;
     g_Deno := Some {| deno_env_toObject :=
                         Ok {[ "C" := JStr "deno"; "D" := JStr "deno";
                               "E" := JStr "deno" ]};
                       deno_env_get := fun key =>
                         if String.eqb key "LATE" then Ok (JStr "deno")
                         else Ok JUndefined |};
     g_Bun := false;
     g_window := Some {| window___ENV__ :=
                           Some (Plain {[ "D" := JStr "window.__ENV__";
                                          "E" := JStr "window.__ENV__" ]});
                         window_env := Some (Plain {[ "D" := JStr "window.env" ]});
                         window_process := None;
                         window___webpack_require__ := false |};
     g___ENV__ := Some (Plain {[ "E" := JStr "globalThis.__ENV__" ]}) |}.

(** Deno without the permission to read the environment and without a
    [process] global, on a page that carries a global [__ENV__]. *)
Definition deno_denied_with_global : world :=
  {| g_process := None;
     g_import_meta := Some {| meta_env := None |};
     g_importMeta := false;
     g_Deno := Some {| deno_env_toObject := Throw permission_denied;
                        deno_env_get := fun _ => Throw permission_denied |};
     g_Bun := false; g_window := None;
     g___ENV__ := Some (Plain {[ "API_URL" := JStr "bar" ]}) |}.

Definition blank_state : state :=
  {| heap := [detectRuntime empty_world]; runtimeDetection := 0; envCache := ∅ |}.

Definition state_with (c : gmap string jsval) : state :=
  with_envCache c blank_state.

(** Node.js started with [CUSTOM_PORT=abc]. *)
Definition custom_port_world : world :=
  node_world (Plain {[ "CUSTOM_PORT" := JStr "abc" ]}).

(** An instance whose cache holds an empty value, a blank one, a number
    and a word. *)
Definition number_state : state :=
  state_with {[ "EMPTY" := JStr ""; "BLANK" := JStr "  ";
                "PORT" := JStr "42"; "WORD" := JStr "abc" ]}.

(** How deep the chain of causes under a thrown value is. *)
Fixpoint cause_depth (e : thrown) : nat :=
  match e with
  | ErrorObj _ (Some c) => S (cause_depth c)
  | _ => 0
  end.

(** A transform that always throws a plain [Error]. *)
Definition failing_transform (value : jsval) : outcome jsval :=
  Throw (new_Error "bad port").

(** ** Vocabulary of the further statements *)

(** What the three re-queries of [#tryGetValue] find for [key] in the
    host, the cache left aside: a defined value, nothing, or the failure
    of a read outside the [try]. *)
Definition requery (w : world) (key : string) : outcome (option jsval) :=
  let defined (value : jsval) : option jsval :=
    if is_undefined value then None else Some value in
  let from_deno : outcome (option jsval) :=
    match g_Deno w with
    | Some deno =>
        match deno_env_get deno key with
        | Ok value => Ok (defined value)
        | Throw _ => Ok None
        end
    | None => Ok None
    end in
  let from_import_meta : outcome (option jsval) :=
    match import_meta_dot_env w with
    | Some menv =>
        match get_property menv key with
        | Ok value =>
            match defined value with
            | Some v => Ok (Some v)
            | None => from_deno
            end
        | Throw e => Throw e
        end
    | None => from_deno
    end in
  match process_dot_env w with
  | Some penv =>
      match has_property penv key with
      | Ok true =>
          match get_property penv key with
          | Ok value =>
              match defined value with
              | Some v => Ok (Some v)
              | None => from_import_meta
              end
          | Throw e => Throw e
          end
      | Ok false => from_import_meta
      | Throw e => Throw e
      end
  | None => from_import_meta
  end.

(** The names [get] looks up, in order, for a key and its options. *)
Definition lookup_names (key : string) (options : ConfigOptions) : list string :=
  if truthy_string (prefix_or_empty options) then [fullKey key options]
  else candidates key.


(** What a client of the instance may do: call a method, or write into a
    runtime descriptor it holds. *)
Inductive client_call : Type :=
  | Method (c : call)
  | MethodRefresh (w : world)
  | MethodGetAll (prefix : option string)
  | MethodGetWithDefault (w : world) (key : string) (defaultValue : jsval)
      (options : ConfigOptions)
  | MethodGetBoolean (w : world) (key : string) (options : ConfigOptions)
  | WriteDescriptor (address : nat) (r : RuntimeDetection).

(** A client: the addresses of the descriptors it holds and the instance
    it calls. *)
Record client : Type := {
  held : list nat;
  instance : state
}.

(** One action of the client.  What [getRuntime] returns joins the
    addresses held; a write to an address that is not held cannot be
    expressed by the client and does nothing. *)
Definition client_step (c : client_call) (cl : client) : client :=
  match c with
  | Method CallGetRuntime =>
      match getRuntime (instance cl) with
      | (Ok address, s') => {| held := address :: held cl; instance := s' |}
      | (Throw _, s') => {| held := held cl; instance := s' |}
      end
  | Method c => {| held := held cl; instance := run_call c (instance cl) |}
  | MethodRefresh w =>
      {| held := held cl; instance := snd (refresh w (instance cl)) |}
  | MethodGetAll prefix =>
      {| held := held cl; instance := snd (getAll prefix (instance cl)) |}
  | MethodGetWithDefault w key defaultValue options =>
      {| held := held cl;
         instance := snd (getWithDefault w key defaultValue options (instance cl)) |}
  | MethodGetBoolean w key options =>
      {| held := held cl; instance := snd (getBoolean w key options (instance cl)) |}
  | WriteDescriptor address r =>
      if bool_decide (address ∈ held cl)
      then {| held := held cl; instance := caller_writes address r (instance cl) |}
      else cl
  end.

Definition client_run (calls : list client_call) (cl : client) : client :=
  foldl (fun cl c => client_step c cl) cl calls.

(** The client of a new instance built on the heap [h]: it may hold every
    object that existed before. *)
Definition new_client (h : list RuntimeDetection) (s : state) : client :=
  {| held := seq 0 (length h); instance := s |}.

(** A browser page served by Vite's development server. *)
Definition vite_dev_world : world :=
  {| g_process := None;
     g_import_meta := Some {| meta_env :=
       Some (Plain {[ "DEV" := JBool true; "MODE" := JStr "development";
                      "VITE_DEBUG" := JStr "Yes" ]}) |};
     g_importMeta := false;
     g_Deno := None; g_Bun := false;
     g_window := Some {| window___ENV__ := None; window_env := None;
                         window_process := None;
                         window___webpack_require__ := false |};
     g___ENV__ := None |}.

(** The instance built on that page. *)
Definition vite_dev_state : state :=
  {| heap := [detectRuntime vite_dev_world]; runtimeDetection := 0;
     envCache := merged_sources vite_dev_world |}.

(** Node.js in which [process.env] exists and [import.meta.env] is an
    object whose reads throw. *)
Definition half_readable_world : world :=
  {| g_process := Some {| process_env := Some (Plain vite_api_url) |};
     g_import_meta := Some {| meta_env := Some (Hostile permission_denied) |};
     g_importMeta := false;
     g_Deno := None; g_Bun := false; g_window := None; g___ENV__ := None |}.

(** ** Reasoning about the monad *)

Ltac unfold_monad :=
  unfold or_else, when_some, assign_envCache, store_envCache,
    write_envCache, read_envCache, host, try_catch, throw, ret, bind in *.

Lemma bind_Ok {A B} (m : M A) (k : A -> M B) (s s' : state) (a : A) :
  m s = (Ok a, s') -> bind m k s = k a s'.
Proof. intros H. unfold bind. now rewrite H. Qed.

Lemma bind_Throw {A B} (m : M A) (k : A -> M B) (s s' : state) (e : thrown) :
  m s = (Throw e, s') -> bind m k s = (Throw e, s').
Proof. intros H. unfold bind. now rewrite H. Qed.

Lemma with_envCache_same (s : state) : with_envCache (envCache s) s = s.
Proof. now destruct s. Qed.

Lemma is_undefined_true (v : jsval) : is_undefined v = true <-> v = JUndefined.
Proof. destruct v; simpl; split; congruence. Qed.

Lemma is_undefined_false (v : jsval) : is_undefined v = false <-> v <> JUndefined.
Proof. destruct v; simpl; split; congruence. Qed.

(** ** Direct lookup *)

Lemma tryProcessEnv_lacks (w : world) (key : string) (s : state) :
  readable_lacks (process_dot_env w) key ->
  tryProcessEnv w key s = (Ok None, s).
Proof.
  unfold tryProcessEnv, readable_lacks.
  destruct (process_dot_env w) as [[props|e]|]; [|done..].
  intros H. unfold_monad. simpl.
  destruct (bool_decide _); [|done]. now rewrite H.
Qed.


Lemma tryImportMetaEnv_lacks (w : world) (key : string) (s : state) :
  readable_lacks (import_meta_dot_env w) key ->
  tryImportMetaEnv w key s = (Ok None, s).
Proof.
  unfold tryImportMetaEnv, readable_lacks.
  destruct (import_meta_dot_env w) as [[props|e]|]; [|done..].
  intros H. unfold_monad. simpl. now rewrite H.
Qed.


Lemma tryDenoEnv_lacks (w : world) (key : string) (s : state) :
  deno_lacks (g_Deno w) key ->
  tryDenoEnv w key s = (Ok None, s).
Proof.
  unfold tryDenoEnv, deno_lacks.
  destruct (g_Deno w) as [d|]; [|done].
  unfold_monad. destruct (deno_env_get d key) as [v|e]; [|done].
  now intros ->.
Qed.


Lemma tryGetValue_cached (w : world) (key : string) (s : state) (v : jsval) :
  envCache s !! key = Some v -> tryGetValue w key s = (Ok v, s).
Proof. intros H. unfold tryGetValue. unfold_monad. now rewrite H. Qed.

Lemma tryGetValue_uncached (w : world) (key : string) (s : state) :
  envCache s !! key = None ->
  tryGetValue w key s =
    or_else (tryProcessEnv w key)
      (or_else (tryImportMetaEnv w key)
         (or_else (tryDenoEnv w key) (ret JUndefined))) s.
Proof. intros H. unfold tryGetValue. unfold bind at 1, read_envCache. now rewrite H. Qed.


Lemma or_else_falls_through (step : M (option jsval)) (rest : M jsval)
    (s s' : state) :
  step s = (Ok None, s') -> or_else step rest s = rest s'.
Proof. intros H. unfold or_else. now rewrite (bind_Ok _ _ _ _ _ H). Qed.

Lemma tryGetValue_miss (w : world) (key : string) (s : state) :
  envCache s !! key = None -> requery_lacks w key ->
  tryGetValue w key s = (Ok JUndefined, s).
Proof.
  intros Hc (Hp & Hm & Hd). rewrite tryGetValue_uncached by done.
  rewrite (or_else_falls_through _ _ _ _ (tryProcessEnv_lacks _ _ _ Hp)).
  rewrite (or_else_falls_through _ _ _ _ (tryImportMetaEnv_lacks _ _ _ Hm)).
  now rewrite (or_else_falls_through _ _ _ _ (tryDenoEnv_lacks _ _ _ Hd)).
Qed.

Lemma tryProcessEnv_effect (w : world) (key : string) (s s' : state)
    (r : outcome (option jsval)) :
  tryProcessEnv w key s = (r, s') -> step_effect key s r s'.
Proof.
  unfold tryProcessEnv, step_effect.
  destruct (process_dot_env w) as [[props|e]|]; unfold_monad; simpl.
  - destruct (bool_decide _).
    + destruct (is_undefined _) eqn:Hu; intros [= <- <-].
      * left. split; [done|]. congruence.
      * right. eexists. apply is_undefined_false in Hu. done.
    + intros [= <- <-]. left. split; [done|]. congruence.
  - intros [= <- <-]. left. split; [done|]. congruence.
  - intros [= <- <-]. left. split; [done|]. congruence.
Qed.

Lemma tryImportMetaEnv_effect (w : world) (key : string) (s s' : state)
    (r : outcome (option jsval)) :
  tryImportMetaEnv w key s = (r, s') -> step_effect key s r s'.
Proof.
  unfold tryImportMetaEnv, step_effect.
  destruct (import_meta_dot_env w) as [[props|e]|]; unfold_monad; simpl.
  - destruct (is_undefined _) eqn:Hu; intros [= <- <-].
    + left. split; [done|]. congruence.
    + right. eexists. apply is_undefined_false in Hu. done.
  - intros [= <- <-]. left. split; [done|]. congruence.
  - intros [= <- <-]. left. split; [done|]. congruence.
Qed.

Lemma tryDenoEnv_effect (w : world) (key : string) (s s' : state)
    (r : outcome (option jsval)) :
  tryDenoEnv w key s = (r, s') -> step_effect key s r s'.
Proof.
  unfold tryDenoEnv, step_effect.
  destruct (g_Deno w) as [d|]; unfold_monad; simpl.
  - destruct (deno_env_get d key) as [v|e].
    + destruct (is_undefined v) eqn:Hu; intros [= <- <-].
      * left. split; [done|]. congruence.
      * right. eexists. apply is_undefined_false in Hu. done.
    + intros [= <- <-]. left. split; [done|]. congruence.
  - intros [= <- <-]. left. split; [done|]. congruence.
Qed.

Lemma or_else_effect (key : string) (step : M (option jsval)) (rest : M jsval)
    (s s' : state) (r : outcome jsval) :
  (forall r1 s1, step s = (r1, s1) -> step_effect key s r1 s1) ->
  (forall r2 s2, rest s = (r2, s2) -> lookup_effect key s r2 s2) ->
  or_else step rest s = (r, s') -> lookup_effect key s r s'.
Proof.
  intros Hstep Hrest. unfold or_else, bind.
  destruct (step s) as [r1 s1] eqn:E.
  destruct (Hstep _ _ eq_refl) as [[-> Hno]|(v & -> & Hv & ->)].
  - destruct r1 as [[v|]|e].
    + now destruct (Hno v).
    + apply Hrest.
    + intros [= <- <-]. now left.
  - intros [= <- <-]. right. eauto.
Qed.

Lemma tryGetValue_effect (w : world) (key : string) (s s' : state)
    (r : outcome jsval) :
  tryGetValue w key s = (r, s') ->
  s' = s \/
  (envCache s !! key = None /\
   exists v, r = Ok v /\ v <> JUndefined /\ s' = with_cached key v s).
Proof.
  destruct (envCache s !! key) as [c|] eqn:Hc.
  - rewrite (tryGetValue_cached _ _ _ _ Hc). intros [= <- <-]. now left.
  - rewrite tryGetValue_uncached by done. intros H.
    assert (lookup_effect key s r s') as [->|Heff]; [|now left|right; done].
    revert H. apply or_else_effect.
    { intros r1 s1. apply tryProcessEnv_effect. }
    intros r2 s2. apply or_else_effect.
    { intros r1 s1. apply tryImportMetaEnv_effect. }
    intros r3 s3. apply or_else_effect.
    { intros r1 s1. apply tryDenoEnv_effect. }
    intros r4 s4 [= <- <-]. now left.
Qed.

Lemma cache_grows_refl (s : state) : cache_grows s s.
Proof. done. Qed.

Lemma cache_grows_trans (s1 s2 s3 : state) :
  cache_grows s1 s2 -> cache_grows s2 s3 -> cache_grows s1 s3.
Proof.
  intros (h1 & r1 & c1) (h2 & r2 & c2). repeat split; [congruence..|].
  by etrans.
Qed.

Lemma tryGetValue_grows (w : world) (key : string) (s s' : state)
    (r : outcome jsval) :
  tryGetValue w key s = (r, s') -> cache_grows s s'.
Proof.
  intros H. destruct (tryGetValue_effect _ _ _ _ _ H)
    as [->|(Hc & v & _ & _ & ->)]; [done|].
  repeat split. simpl. by apply insert_subseteq.
Qed.

(** ** Methods that only add to the cache *)

Lemma grows_ret {A} (a : A) : grows (ret a).
Proof. intros s r s' [= <- <-]. apply cache_grows_refl. Qed.

Lemma grows_throw {A} (e : thrown) : grows (@throw A e).
Proof. intros s r s' [= <- <-]. apply cache_grows_refl. Qed.

Lemma grows_host {A} (o : outcome A) : grows (host o).
Proof. intros s r s' [= <- <-]. apply cache_grows_refl. Qed.

Lemma grows_bind {A B} (m : M A) (k : A -> M B) :
  grows m -> (forall a, grows (k a)) -> grows (bind m k).
Proof.
  intros Hm Hk s r s'. unfold bind.
  destruct (m s) as [[a|e] s1] eqn:E.
  - intros H. eapply cache_grows_trans; [by eapply Hm|by eapply Hk].
  - intros [= <- <-]. by eapply Hm.
Qed.

Lemma grows_try_catch {A} (m : M A) (handler : thrown -> M A) :
  grows m -> (forall e, grows (handler e)) -> grows (try_catch m handler).
Proof.
  intros Hm Hh s r s'. unfold try_catch.
  destruct (m s) as [[a|e] s1] eqn:E.
  - intros [= <- <-]. by eapply Hm.
  - intros H. eapply cache_grows_trans; [by eapply Hm|by eapply Hh].
Qed.

Lemma grows_tryGetValue (w : world) (key : string) : grows (tryGetValue w key).
Proof. intros s r s'. apply tryGetValue_grows. Qed.

Lemma grows_tryCommonPrefixes (w : world) (key : string) (prefixes : list string)
    (value : jsval) :
  grows (tryCommonPrefixes w key prefixes value).
Proof.
  revert value. induction prefixes as [|p rest IH]; intros value; simpl.
  - apply grows_ret.
  - apply grows_bind; [apply grows_tryGetValue|].
    intros v. destruct (is_undefined v); [apply IH|apply grows_ret].
Qed.

Lemma grows_get (w : world) (key : string) (options : ConfigOptions) :
  grows (get w key options).
Proof.
  unfold get. apply grows_bind; [apply grows_tryGetValue|].
  intros v. destruct (_ && _); [apply grows_tryCommonPrefixes|apply grows_ret].
Qed.

Lemma grows_has (w : world) (key : string) : grows (has w key).
Proof.
  unfold has. apply grows_bind; [apply grows_get|]. intros v. apply grows_ret.
Qed.

Lemma grows_getRequired (w : world) (key : string) (options : ConfigOptions) :
  grows (getRequired w key options).
Proof.
  unfold getRequired. apply grows_bind; [apply grows_get|].
  intros v. destruct (is_undefined v); [apply grows_throw|apply grows_ret].
Qed.

Lemma grows_getTransformed {T} (w : world) (key : string)
    (transform : jsval -> outcome T) (options : ConfigOptions) :
  grows (getTransformed w key transform options).
Proof.
  unfold getTransformed. apply grows_bind; [apply grows_get|].
  intros v. destruct (is_undefined v); [apply grows_ret|].
  apply grows_try_catch.
  - apply grows_bind; [apply grows_host|]. intros t. apply grows_ret.
  - intros e. apply grows_throw.
Qed.

Lemma grows_getNumber (w : world) (key : string) (options : ConfigOptions) :
  grows (getNumber w key options).
Proof. apply grows_getTransformed. Qed.

(** ** Resolution by [get] *)

Lemma bind_ret_r {A} (m : M A) (s : state) : bind m ret s = m s.
Proof. unfold bind, ret. by destruct (m s) as [[a|e] s']. Qed.

Lemma tryCommonPrefixes_first_hit (w : world) (key : string)
    (prefixes : list string) (s : state) :
  tryCommonPrefixes w key prefixes JUndefined s =
  first_hit w ((fun commonPrefix => commonPrefix +:+ key) <$> prefixes) s.
Proof.
  revert s. induction prefixes as [|p rest IH]; intros s; [done|].
  simpl. unfold bind.
  destruct (tryGetValue w (p +:+ key) s) as [[v|e] s1]; [|done].
  destruct (is_undefined v) eqn:Hu; [|done].
  apply is_undefined_true in Hu as ->. apply IH.
Qed.

Lemma get_no_prefix (w : world) (key : string) (s : state) :
  get w key no_options s = first_hit w (candidates key) s.
Proof.
  unfold get, candidates. simpl. unfold fullKey. simpl. unfold bind.
  destruct (tryGetValue w key s) as [[v|e] s1]; [|done].
  destruct (is_undefined v) eqn:Hu; [|done].
  apply is_undefined_true in Hu as ->. simpl.
  apply (tryCommonPrefixes_first_hit w key commonPrefixes).
Qed.

Lemma truthy_nonempty (p : string) : p <> "" -> truthy_string p = true.
Proof. by destruct p. Qed.

Lemma get_prefixed (w : world) (key p : string) (s : state) :
  p <> "" ->
  get w key {| prefix := Some p |} s = tryGetValue w (p +:+ key) s.
Proof.
  intros Hp. unfold get, fullKey, prefix_or_empty. simpl.
  rewrite (truthy_nonempty _ Hp). simpl.
  rewrite <- (bind_ret_r (tryGetValue w (p +:+ key)) s).
  unfold bind. destruct (tryGetValue _ _ _) as [[v|e] s1]; [|done].
  by rewrite andb_false_r.
Qed.

Lemma first_hit_all_miss (w : world) (names : list string) (s : state) :
  (forall name, name ∈ names -> envCache s !! name = None /\ requery_lacks w name) ->
  first_hit w names s = (Ok JUndefined, s).
Proof.
  induction names as [|name rest IH]; intros H; [done|].
  simpl. destruct (H name) as [Hc Hl]; [by left|].
  rewrite (bind_Ok _ _ _ _ _ (tryGetValue_miss _ _ _ Hc Hl)). simpl.
  apply IH. intros n Hn. apply H. by right.
Qed.

Lemma first_hit_only (w : world) (names : list string) (target : string)
    (v : jsval) (s s' : state) :
  target ∈ names ->
  tryGetValue w target s = (Ok v, s') -> v <> JUndefined ->
  (forall name, name ∈ names -> name <> target ->
     envCache s !! name = None /\ requery_lacks w name) ->
  first_hit w names s = (Ok v, s').
Proof.
  intros Hin Hhit Hv. induction names as [|name rest IH]; intros H.
  - by apply elem_of_nil in Hin.
  - simpl. destruct (decide (name = target)) as [->|Hne].
    + rewrite (bind_Ok _ _ _ _ _ Hhit).
      apply is_undefined_false in Hv. by rewrite Hv.
    + destruct (H name) as [Hc Hl]; [by left|done|].
      rewrite (bind_Ok _ _ _ _ _ (tryGetValue_miss _ _ _ Hc Hl)). simpl.
      apply IH.
      * apply elem_of_cons in Hin as [->|Hin]; [done|done].
      * intros n Hn. apply H. by right.
Qed.

Lemma get_all_miss (w : world) (key : string) (s : state) :
  (forall name, name ∈ candidates key ->
     envCache s !! name = None /\ requery_lacks w name) ->
  get w key no_options s = (Ok JUndefined, s).
Proof. intros H. rewrite get_no_prefix. by apply first_hit_all_miss. Qed.

(** ** Properties of the lookup *)




Lemma vite_state_others_miss (name : string) :
  name ∈ candidates "API_URL" -> name <> "VITE_" +:+ "API_URL" ->
  envCache vite_state !! name = None /\ requery_lacks vite_world name.
Proof.
  intros Hin Hne.
  repeat (apply elem_of_cons in Hin as [->|Hin]);
    [..|by apply elem_of_nil in Hin];
    try done; (split; [by vm_compute|by vm_compute]).
Qed.

Lemma vite_state_get_API_URL :
  get vite_world "API_URL" no_options vite_state = (Ok (JStr "foo"), vite_state).
Proof.
  rewrite get_no_prefix.
  apply (first_hit_only _ _ ("VITE_" +:+ "API_URL")).
  - right. by left.
  - by apply tryGetValue_cached.
  - discriminate.
  - apply vite_state_others_miss.
Qed.






(** ** The source merger *)

Lemma with_envCache_twice (c c' : gmap string jsval) (s : state) :
  with_envCache c (with_envCache c' s) = with_envCache c s.
Proof. done. Qed.

Lemma assign_stage (source : option env_object) (s : state) :
  readable source ->
  when_some source assign_envCache s =
    (Ok tt, with_envCache (props_of source ∪ envCache s) s).
Proof.
  destruct source as [[props|e]|]; simpl; [done| done |].
  intros _. unfold ret. by rewrite (left_id_L ∅ (∪)), with_envCache_same.
Qed.

Lemma assign_stage_hostile (e : thrown) (s : state) :
  when_some (Some (Hostile e)) assign_envCache s = (Throw e, s).
Proof. done. Qed.

Lemma deno_stage (deno : option deno_obj) (s : state) :
  when_some deno (fun deno =>
    try_catch
      (let* denoEnv := host (deno_env_toObject deno) in
       assign_envCache (Plain denoEnv))
      (fun _ => ret tt)) s =
    (Ok tt, with_envCache (deno_props deno ∪ envCache s) s).
Proof.
  destruct deno as [d|]; simpl.
  - unfold_monad. destruct (deno_env_toObject d) as [props|e]; [done|].
    by rewrite (left_id_L ∅ (∪)), with_envCache_same.
  - unfold ret. by rewrite (left_id_L ∅ (∪)), with_envCache_same.
Qed.

Lemma window_stage (w : world) (s : state) :
  readable (match g_window w with Some win => windowEnv win | None => None end) ->
  when_some (g_window w) (fun win => when_some (windowEnv win) assign_envCache) s =
    (Ok tt, with_envCache (window_props w ∪ envCache s) s).
Proof.
  unfold window_props. destruct (g_window w) as [win|]; simpl.
  - apply assign_stage.
  - intros _. unfold ret. by rewrite (left_id_L ∅ (∪)), with_envCache_same.
Qed.

Lemma loadEnvironmentVariables_readable (w : world) (s : state) :
  other_sources_readable w ->
  loadEnvironmentVariables w s =
    (Ok tt, with_envCache (merged_sources w ∪ envCache s) s).
Proof.
  intros (Hp & Hm & Hw & Hg). unfold loadEnvironmentVariables.
  rewrite (bind_Ok _ _ _ _ _ (assign_stage _ s Hp)).
  rewrite (bind_Ok _ _ _ _ _ (assign_stage _ _ Hm)).
  rewrite (bind_Ok _ _ _ _ _ (deno_stage _ _)).
  rewrite (bind_Ok _ _ _ _ _ (window_stage _ _ Hw)).
  rewrite (assign_stage _ _ Hg). simpl.
  unfold merged_sources. by rewrite !(assoc_L (∪)).
Qed.

Lemma loadEnvironmentVariables_frame (w : world) (s s' : state) (r : outcome unit) :
  loadEnvironmentVariables w s = (r, s') ->
  heap s' = heap s /\ runtimeDetection s' = runtimeDetection s.
Proof.
  unfold loadEnvironmentVariables, windowEnv.
  destruct (process_dot_env w) as [[?|?]|], (import_meta_dot_env w) as [[?|?]|],
    (g_Deno w) as [[[?|?] ?]|], (g_window w) as [[[[?|?]|] [[?|?]|] [[[[?|?]|]]|] ?]|],
    (g___ENV__ w) as [[?|?]|];
    unfold_monad; simpl; by intros [= <- <-].
Qed.



Lemma new_ConfigLoader_readable (w : world) (h : list RuntimeDetection) :
  other_sources_readable w ->
  new_ConfigLoader w h =
    (Ok tt, {| heap := h ++ [detectRuntime w];
               runtimeDetection := length h;
               envCache := merged_sources w |}).
Proof.
  intros H. unfold new_ConfigLoader.
  rewrite (loadEnvironmentVariables_readable _ _ H). simpl.
  by rewrite (right_id_L ∅ (∪)).
Qed.





(** ** Failures while reading a source *)




(** ** Writes into the cache *)

Lemma get_cached (w : world) (key : string) (v : string) (s : state) :
  envCache s !! key = Some (JStr v) ->
  get w key no_options s = (Ok (JStr v), s).
Proof.
  intros H. unfold get. simpl. unfold fullKey. simpl.
  by rewrite (bind_Ok _ _ _ _ _ (tryGetValue_cached w _ _ _ H)).
Qed.









(** ** Refresh and the runtime descriptor *)


Lemma refresh_frame (w : world) (s s' : state) (r : outcome unit) :
  refresh w s = (r, s') ->
  heap s' = heap s /\ runtimeDetection s' = runtimeDetection s.
Proof.
  unfold refresh, bind, write_envCache. intros H.
  by apply loadEnvironmentVariables_frame in H.
Qed.


Lemma new_ConfigLoader_descriptor (w : world) (h : list RuntimeDetection)
    (r : outcome unit) (s : state) :
  new_ConfigLoader w h = (r, s) ->
  heap s = (h ++ [detectRuntime w])%list /\ runtimeDetection s = length h.
Proof.
  unfold new_ConfigLoader. intros H.
  by apply loadEnvironmentVariables_frame in H.
Qed.

Lemma getRuntime_copy (s : state) (r : RuntimeDetection) :
  heap s !! runtimeDetection s = Some r ->
  exists s',
    getRuntime s = (Ok (length (heap s)), s') /\
    length (heap s) <> runtimeDetection s /\
    heap s' !! length (heap s) = Some r /\
    runtimeDetection s' = runtimeDetection s /\
    envCache s' = envCache s /\
    forall r', heap (caller_writes (length (heap s)) r' s') !! runtimeDetection s' = Some r.
Proof.
  intros H. unfold getRuntime. rewrite H. eexists. split; [done|].
  assert (runtimeDetection s < length (heap s)) as Hlt by by eapply lookup_lt_Some.
  split; [lia|]. simpl. split; [by apply list_lookup_middle|].
  split; [done|]. split; [done|]. intros r'.
  rewrite list_lookup_insert_ne by lia. by apply lookup_app_l_Some.
Qed.




(** ** Transforms *)

Lemma getTransformed_not_found {T} (w : world) (key : string)
    (transform : jsval -> outcome T) (options : ConfigOptions) (s s' : state) :
  get w key options s = (Ok JUndefined, s') ->
  getTransformed w key transform options s = (Ok None, s').
Proof. intros H. unfold getTransformed. by rewrite (bind_Ok _ _ _ _ _ H). Qed.

Lemma getTransformed_returns {T} (w : world) (key : string)
    (transform : jsval -> outcome T) (options : ConfigOptions) (s s' : state)
    (v : jsval) (t : T) :
  get w key options s = (Ok v, s') -> v <> JUndefined ->
  transform v = Ok t ->
  getTransformed w key transform options s = (Ok (Some t), s').
Proof.
  intros H Hv Ht. unfold getTransformed. rewrite (bind_Ok _ _ _ _ _ H).
  apply is_undefined_false in Hv. rewrite Hv. unfold_monad. by rewrite Ht.
Qed.

Lemma getTransformed_rethrows {T} (w : world) (key : string)
    (transform : jsval -> outcome T) (options : ConfigOptions) (s s' : state)
    (v : jsval) (e : thrown) :
  get w key options s = (Ok v, s') -> v <> JUndefined ->
  transform v = Throw e ->
  getTransformed w key transform options s =
    (Throw (new_Error_with
              ("Failed to transform config value for key " +:+ dquote +:+
               fullKey key options +:+ dquote +:+ ":") e), s').
Proof.
  intros H Hv Ht. unfold getTransformed. rewrite (bind_Ok _ _ _ _ _ H).
  apply is_undefined_false in Hv. rewrite Hv. unfold_monad. by rewrite Ht.
Qed.

Lemma getTransformed_propagates {T} (w : world) (key : string)
    (transform : jsval -> outcome T) (options : ConfigOptions) (s s' : state)
    (e : thrown) :
  get w key options s = (Throw e, s') ->
  getTransformed w key transform options s = (Throw e, s').
Proof. intros H. unfold getTransformed. by rewrite (bind_Throw _ _ _ _ _ H). Qed.

Lemma new_Error_with_message (message : string) (e : thrown) :
  error_message (new_Error_with message e) = Some message.
Proof. by destruct e as [m [c|]|v]. Qed.

Lemma new_Error_with_cause (message : string) (e : thrown) :
  error_cause (new_Error_with message e) = error_cause e.
Proof. by destruct e as [m [c|]|v]. Qed.

(** The error built from a caught value never has that value as its
    cause: it has the cause of the caught value, if any. *)
Lemma new_Error_with_drops (message : string) (e : thrown) :
  error_cause (new_Error_with message e) <> Some e.
Proof.
  rewrite new_Error_with_cause. destruct e as [m [c|]|v]; simpl; [|done..].
  intros [= H]. apply (f_equal cause_depth) in H. simpl in H. lia.
Qed.

(** C3, on the code.  [getTransformed("PORT", transform, {prefix:
    "CUSTOM_"})] with [CUSTOM_PORT=abc] in the environment and a transform
    that throws [new Error("bad port")]: the error that comes out has the
    message naming the prefixed key, and no cause, because the caught error
    is passed to [Error] in the place of the options object. *)
Theorem getTransformed_cause_lost :
  exists s,
    new_ConfigLoader custom_port_world [] = (Ok tt, s) /\
    get custom_port_world "PORT" {| prefix := Some "CUSTOM_" |} s = (Ok (JStr "abc"), s) /\
    failing_transform (JStr "abc") = Throw (new_Error "bad port") /\
    getTransformed custom_port_world "PORT" failing_transform
      {| prefix := Some "CUSTOM_" |} s =
      (Throw (ErrorObj ("Failed to transform config value for key " +:+ dquote +:+
                        "CUSTOM_PORT" +:+ dquote +:+ ":") None), s) /\
    error_cause (ErrorObj ("Failed to transform config value for key " +:+ dquote +:+
                           "CUSTOM_PORT" +:+ dquote +:+ ":") None)
      <> Some (new_Error "bad port").
Proof.
  assert (other_sources_readable custom_port_world) as Hr by by vm_compute.
  eexists. split; [exact (new_ConfigLoader_readable custom_port_world [] Hr)|].
  assert (get custom_port_world "PORT" {| prefix := Some "CUSTOM_" |}
            {| heap := [] ++ [detectRuntime custom_port_world];
               runtimeDetection := length (@nil RuntimeDetection);
               envCache := merged_sources custom_port_world |} =
          (Ok (JStr "abc"),
           {| heap := [] ++ [detectRuntime custom_port_world];
              runtimeDetection := length (@nil RuntimeDetection);
              envCache := merged_sources custom_port_world |})) as Hget.
  { rewrite get_prefixed by discriminate. apply tryGetValue_cached. by vm_compute. }
  split; [exact Hget|]. split; [done|]. split; [|discriminate].
  by rewrite (getTransformed_rethrows _ _ _ _ _ _ _ (new_Error "bad port") Hget).
Qed.

(** ** Numbers *)

Example StringToNumber_samples :
  StringToNumber "42" = Finite false 42 0 /\
  StringToNumber " 12 " = Finite false 12 0 /\
  StringToNumber "-1.5e3" = Finite true 15 2 /\
  StringToNumber ".5" = Finite false 5 (-1) /\
  StringToNumber "0x1F" = Finite false 31 0 /\
  StringToNumber "-Infinity" = Infinite true /\
  StringToNumber "" = zero /\
  StringToNumber "abc" = NaN /\
  StringToNumber "1 2" = NaN /\
  StringToNumber "-0x1F" = NaN /\
  StringToNumber "1e" = NaN /\
  StringToNumber "." = NaN.
Proof. repeat split; reflexivity. Qed.

Lemma drop_StrWhiteSpace_blank (l : list ascii) :
  Forall (fun c => is_StrWhiteSpaceChar c = true) l -> drop_StrWhiteSpace l = [].
Proof. induction 1 as [|c l Hc _ IH]; [done|]. simpl. by rewrite Hc. Qed.

Lemma StringToNumber_blank (v : string) :
  Forall (fun c => is_StrWhiteSpaceChar c = true) (list_ascii_of_string v) ->
  StringToNumber v = zero.
Proof.
  intros H. unfold StringToNumber, trim.
  by rewrite (drop_StrWhiteSpace_blank _ H).
Qed.

Lemma getNumber_transform_spec (value : jsval) :
  (isNaN (Number value) = true /\
   getNumber_transform value =
     Throw (new_Error ("Value " +:+ dquote +:+ to_string value +:+ dquote +:+
                       " is not a valid number"))) \/
  (isNaN (Number value) = false /\
   getNumber_transform value = Ok (Number value)).
Proof.
  unfold getNumber_transform. destruct (isNaN (Number value)); [by left|by right].
Qed.

(** C10. When [get] finds a string, [getNumber] returns zero if the string
    is empty or made of white space only, returns the coerced number
    whenever the coercion is not NaN, and throws exactly when it is NaN:
    the transform then throws the not-a-valid-number error and
    [getTransformed] signals the failure for the prefixed key. *)
Theorem getNumber_spec (w : world) (key : string) (options : ConfigOptions)
    (s s' : state) (v : string) :
  get w key options s = (Ok (JStr v), s') ->
  (v = "" -> getNumber w key options s = (Ok (Some zero), s')) /\
  (Forall (fun c => is_StrWhiteSpaceChar c = true) (list_ascii_of_string v) ->
   Number (JStr v) = zero /\
   getNumber w key options s = (Ok (Some zero), s')) /\
  (isNaN (Number (JStr v)) = false ->
   getNumber w key options s = (Ok (Some (Number (JStr v))), s')) /\
  (isNaN (Number (JStr v)) = true ->
   getNumber_transform (JStr v) =
     Throw (new_Error ("Value " +:+ dquote +:+ v +:+ dquote +:+
                       " is not a valid number")) /\
   getNumber w key options s =
     (Throw (new_Error ("Failed to transform config value for key " +:+ dquote +:+
                        fullKey key options +:+ dquote +:+ ":")), s')) /\
  ((exists e, getNumber w key options s = (Throw e, s')) <->
   isNaN (Number (JStr v)) = true).
Proof.
  intros Hget.
  assert (JStr v <> JUndefined) as Hv by discriminate.
  assert (isNaN (Number (JStr v)) = false ->
          getNumber w key options s = (Ok (Some (Number (JStr v))), s')) as Hnum.
  { intros Hn. destruct (getNumber_transform_spec (JStr v)) as [[H _]|[_ H]];
      [congruence|]. by apply (getTransformed_returns _ _ _ _ _ _ _ _ Hget Hv). }
  assert (isNaN (Number (JStr v)) = true ->
          getNumber_transform (JStr v) =
            Throw (new_Error ("Value " +:+ dquote +:+ v +:+ dquote +:+
                              " is not a valid number")) /\
          getNumber w key options s =
            (Throw (new_Error ("Failed to transform config value for key " +:+
                               dquote +:+ fullKey key options +:+ dquote +:+ ":")),
             s')) as Hnan.
  { intros Hn. destruct (getNumber_transform_spec (JStr v)) as [[_ H]|[H _]];
      [|congruence]. split; [done|].
    unfold getNumber.
    by rewrite (getTransformed_rethrows _ _ _ _ _ _ _ _ Hget Hv H). }
  assert (Forall (fun c => is_StrWhiteSpaceChar c = true) (list_ascii_of_string v) ->
          Number (JStr v) = zero /\
          getNumber w key options s = (Ok (Some zero), s')) as Hblank.
  { intros Hb. pose proof (StringToNumber_blank _ Hb) as Hz. split; [done|].
    simpl in Hnum. rewrite Hz in Hnum. by apply Hnum. }
  split; [intros ->; by apply Hblank|]. split; [done|]. split; [done|].
  split; [done|]. split.
  - intros [e He]. destruct (isNaN (Number (JStr v))) eqn:Hn; [done|].
    rewrite (Hnum eq_refl) in He. discriminate.
  - intros Hn. eexists. by apply Hnan.
Qed.

Lemma getNumber_spec_witness :
  getNumber empty_world "EMPTY" no_options number_state =
    (Ok (Some zero), number_state) /\
  getNumber empty_world "BLANK" no_options number_state =
    (Ok (Some zero), number_state) /\
  getNumber empty_world "PORT" no_options number_state =
    (Ok (Some (Finite false 42 0)), number_state) /\
  exists e, getNumber empty_world "WORD" no_options number_state =
    (Throw e, number_state).
Proof.
  split; [|split; [|split]].
  - refine (proj1 (getNumber_spec empty_world "EMPTY" no_options number_state
                     number_state "" _) eq_refl).
    apply get_cached. by vm_compute.
  - refine (proj2 (proj1 (proj2 (getNumber_spec empty_world "BLANK" no_options
                     number_state number_state "  " _)) _)).
    + apply get_cached. by vm_compute.
    + by repeat constructor.
  - refine (proj1 (proj2 (proj2 (getNumber_spec empty_world "PORT" no_options
                     number_state number_state "42" _))) eq_refl).
    apply get_cached. by vm_compute.
  - refine (proj2 (proj2 (proj2 (proj2 (proj2 (getNumber_spec empty_world "WORD"
                     no_options number_state number_state "abc" _))))) eq_refl).
    apply get_cached. by vm_compute.
Defined.

(** ** The descriptor is always live *)


Lemma grows_wf {A} (m : M A) (s s' : state) (r : outcome A) :
  grows m -> m s = (r, s') -> wf_state s -> wf_state s'.
Proof.
  intros Hm H. destruct (Hm _ _ _ H) as (Hh & Hf & _).
  unfold wf_state. by rewrite Hh, Hf.
Qed.

Lemma refresh_wf (w : world) (s s' : state) (r : outcome unit) :
  refresh w s = (r, s') -> wf_state s -> wf_state s'.
Proof.
  intros H. destruct (refresh_frame _ _ _ _ H) as [Hh Hf].
  unfold wf_state. by rewrite Hh, Hf.
Qed.

Lemma getRuntime_wf (s : state) :
  wf_state s ->
  exists s', getRuntime s = (Ok (length (heap s)), s') /\ wf_state s'.
Proof.
  intros [r Hr]. destruct (getRuntime_copy _ _ Hr) as (s' & H1 & _ & _ & H2 & _ & H3).
  exists s'. split; [done|]. unfold wf_state.
  unfold getRuntime in H1. rewrite Hr in H1. injection H1 as <-. simpl.
  exists r. by apply lookup_app_l_Some.
Qed.

(** ** The direct lookup as a function of the cache and the host *)

Lemma tryGetValue_requery (w : world) (key : string) (s : state) :
  tryGetValue w key s =
    match envCache s !! key with
    | Some v => (Ok v, s)
    | None =>
        match requery w key with
        | Ok (Some v) => (Ok v, with_cached key v s)
        | Ok None => (Ok JUndefined, s)
        | Throw e => (Throw e, s)
        end
    end.
Proof.
  destruct (envCache s !! key) as [v|] eqn:Hc.
  - by apply tryGetValue_cached.
  - rewrite tryGetValue_uncached by done.
    unfold requery, tryProcessEnv, tryImportMetaEnv, tryDenoEnv.
    destruct (process_dot_env w) as [[pp|pe]|],
      (import_meta_dot_env w) as [[mp|me]|], (g_Deno w) as [d|];
      unfold_monad; simpl;
      repeat match goal with
             | |- context [bool_decide ?P] => destruct (bool_decide P)
             | |- context [is_undefined ?v] => destruct (is_undefined v)
             | |- context [deno_env_get ?d ?k] => destruct (deno_env_get d k)
             end; done.
Qed.

Lemma requery_defined (w : world) (key : string) (v : jsval) :
  requery w key = Ok (Some v) -> v <> JUndefined.
Proof.
  unfold requery.
  destruct (process_dot_env w) as [[pp|pe]|],
    (import_meta_dot_env w) as [[mp|me]|], (g_Deno w) as [d|]; simpl;
    repeat match goal with
           | |- context [bool_decide ?P] => destruct (bool_decide P)
           | |- context [is_undefined ?v] => destruct (is_undefined v) eqn:?
           | |- context [deno_env_get ?d ?k] => destruct (deno_env_get d k)
           end;
    intros [= <-] || intros [=]; by apply is_undefined_false.
Qed.

Lemma requery_readable (w : world) (key : string) :
  readable (process_dot_env w) -> readable (import_meta_dot_env w) ->
  exists found, requery w key = Ok found.
Proof.
  unfold requery, readable.
  destruct (process_dot_env w) as [[pp|pe]|],
    (import_meta_dot_env w) as [[mp|me]|], (g_Deno w) as [d|]; simpl;
    intros Hp Hm; try done;
    repeat match goal with
           | |- context [bool_decide ?P] => destruct (bool_decide P)
           | |- context [is_undefined ?v] => destruct (is_undefined v)
           | |- context [deno_env_get ?d ?k] => destruct (deno_env_get d k)
           end; eauto.
Qed.

(** A defined result of the lookup is in the cache afterwards. *)
Lemma tryGetValue_result_cached (w : world) (key : string) (s s' : state)
    (v : jsval) :
  tryGetValue w key s = (Ok v, s') -> v <> JUndefined ->
  envCache s' !! key = Some v.
Proof.
  rewrite tryGetValue_requery.
  destruct (envCache s !! key) as [c|] eqn:Hc.
  - by intros [= <- <-].
  - destruct (requery w key) as [[x|]|e]; intros [= <- <-]; [|done].
    intros _. apply lookup_insert_eq.
Qed.

Lemma tryGetValue_undefined_state (w : world) (key : string) (s s' : state) :
  tryGetValue w key s = (Ok JUndefined, s') -> s' = s.
Proof.
  intros H. destruct (tryGetValue_effect _ _ _ _ _ H)
    as [->|(_ & v & [= <-] & Hv & _)]; done.
Qed.

Lemma tryGetValue_throw_state (w : world) (key : string) (s s' : state)
    (e : thrown) :
  tryGetValue w key s = (Throw e, s') -> s' = s.
Proof.
  intros H. destruct (tryGetValue_effect _ _ _ _ _ H)
    as [->|(_ & v & [=] & _)]; done.
Qed.

Lemma tryGetValue_sticky (w w' : world) (key : string) (s s' : state)
    (v : jsval) :
  tryGetValue w key s = (Ok v, s') -> v <> JUndefined ->
  tryGetValue w' key s' = (Ok v, s').
Proof.
  intros H Hv. apply tryGetValue_cached. by eapply tryGetValue_result_cached.
Qed.

Lemma tryGetValue_idem (w : world) (key : string) (s s' : state)
    (r : outcome jsval) :
  tryGetValue w key s = (r, s') -> tryGetValue w key s' = (r, s').
Proof.
  intros H. destruct r as [v|e].
  - destruct (is_undefined v) eqn:Hu.
    + apply is_undefined_true in Hu as ->.
      by rewrite (tryGetValue_undefined_state _ _ _ _ H) in H |- *.
    + apply is_undefined_false in Hu. by eapply tryGetValue_sticky.
  - by rewrite (tryGetValue_throw_state _ _ _ _ _ H) in H |- *.
Qed.

(** A lookup of [name] is not affected by what is cached under another
    name. *)
Lemma tryGetValue_miss_elsewhere (w : world) (name other : string) (v : jsval)
    (s : state) :
  name <> other ->
  tryGetValue w name s = (Ok JUndefined, s) ->
  tryGetValue w name (with_cached other v s) = (Ok JUndefined, with_cached other v s).
Proof.
  intros Hne. rewrite !tryGetValue_requery. simpl.
  rewrite lookup_insert_ne by done.
  destruct (envCache s !! name) as [c|]; [by intros [= ->]|].
  destruct (requery w name) as [[x|]|e] eqn:Hq; [|done|done].
  intros [= ->]. by apply requery_defined in Hq.
Qed.

(** ** [get] as a first hit over its names *)

Lemma get_first_hit (w : world) (key : string) (options : ConfigOptions)
    (s : state) :
  get w key options s = first_hit w (lookup_names key options) s.
Proof.
  unfold lookup_names. destruct options as [[p|]]; [|apply get_no_prefix].
  destruct p as [|c p]; [apply get_no_prefix|].
  rewrite get_prefixed by done. simpl. unfold fullKey. simpl.
  unfold bind. destruct (tryGetValue _ _ _) as [[v|e] s1]; [|done].
  destruct (is_undefined v) eqn:Hu; [|done].
  by apply is_undefined_true in Hu as ->.
Qed.

(** What a run of [first_hit] does: it stops at a name whose lookup
    returns a defined value or throws, every name before it having
    missed; or every name misses. *)
Lemma first_hit_cases (w : world) (names : list string) (s s' : state)
    (r : outcome jsval) :
  first_hit w names s = (r, s') ->
  (r = Ok JUndefined /\ s' = s /\
   forall name, name ∈ names -> tryGetValue w name s = (Ok JUndefined, s)) \/
  (exists before name after,
     names = (before ++ name :: after)%list /\
     (forall n, n ∈ before -> tryGetValue w n s = (Ok JUndefined, s)) /\
     tryGetValue w name s = (r, s') /\
     r <> Ok JUndefined).
Proof.
  revert s'. induction names as [|name rest IH]; intros s'; simpl.
  - intros [= <- <-]. left. repeat split. intros n Hn. by apply elem_of_nil in Hn.
  - unfold bind. destruct (tryGetValue w name s) as [[v|e] s1] eqn:E.
    + destruct (is_undefined v) eqn:Hu.
      * apply is_undefined_true in Hu as ->.
        pose proof (tryGetValue_undefined_state _ _ _ _ E) as ->.
        intros H. destruct (IH _ H) as [(-> & -> & Hall)|(b & n & a & -> & Hb & Hn & Hr)].
        -- left. repeat split. intros n [->|Hn]%elem_of_cons; [done|by apply Hall].
        -- right. exists (name :: b), n, a. repeat split; [|done..].
           intros n' [->|Hn']%elem_of_cons; [done|by apply Hb].
      * intros [= <- <-]. right. exists [], name, rest. repeat split; [|done|].
        -- intros n Hn. by apply elem_of_nil in Hn.
        -- intros [= ->]. done.
    + intros [= <- <-]. right. exists [], name, rest. repeat split; [|done|done].
      intros n Hn. by apply elem_of_nil in Hn.
Qed.

Lemma first_hit_skip (w : world) (before : list string) (rest : list string)
    (s : state) :
  (forall n, n ∈ before -> tryGetValue w n s = (Ok JUndefined, s)) ->
  first_hit w (before ++ rest)%list s = first_hit w rest s.
Proof.
  induction before as [|n before IH]; intros H; [done|]. simpl.
  rewrite (bind_Ok _ _ _ _ _ (H n ltac:(by left))). simpl.
  apply IH. intros n' Hn'. apply H. by right.
Qed.

Lemma first_hit_stop (w : world) (name : string) (after : list string)
    (s s' : state) (r : outcome jsval) :
  tryGetValue w name s = (r, s') -> r <> Ok JUndefined ->
  first_hit w (name :: after) s = (r, s').
Proof.
  intros H Hr. simpl. unfold bind. rewrite H. destruct r as [v|e]; [|done].
  destruct (is_undefined v) eqn:Hu; [|done].
  by apply is_undefined_true in Hu as ->.
Qed.

(** ** Further properties of [get] *)

Lemma get_direct_hit (w : world) (key : string) (options : ConfigOptions)
    (s s' : state) (v : jsval) :
  tryGetValue w (fullKey key options) s = (Ok v, s') -> v <> JUndefined ->
  get w key options s = (Ok v, s').
Proof.
  intros H Hv. unfold get. rewrite (bind_Ok _ _ _ _ _ H).
  apply is_undefined_false in Hv. by rewrite Hv.
Qed.

Lemma get_throw_state (w : world) (key : string) (options : ConfigOptions)
    (s s' : state) (e : thrown) :
  get w key options s = (Throw e, s') -> s' = s.
Proof.
  rewrite get_first_hit. intros H.
  destruct (first_hit_cases _ _ _ _ _ H)
    as [([=] & _)|(before & name & after & _ & _ & Hn & _)].
  by eapply tryGetValue_throw_state.
Qed.

(** X1. [get] is idempotent in a fixed host: called again with the same
    arguments on the state it left, it gives the same outcome and changes
    nothing more. *)
Theorem get_idempotent (w : world) (key : string) (options : ConfigOptions)
    (s s' : state) (r : outcome jsval) :
  get w key options s = (r, s') ->
  get w key options s' = (r, s').
Proof.
  rewrite !get_first_hit. intros H.
  destruct (first_hit_cases _ _ _ _ _ H)
    as [(-> & -> & _)|(before & name & after & Hnames & Hb & Hn & Hr)]; [done|].
  rewrite Hnames. rewrite first_hit_skip.
  - apply first_hit_stop; [by eapply tryGetValue_idem|done].
  - intros n Hin.
    destruct (tryGetValue_effect _ _ _ _ _ Hn) as [->|(Hc & v & -> & Hv & ->)].
    + by apply Hb.
    + apply tryGetValue_miss_elsewhere; [|by apply Hb].
      intros ->. rewrite (Hb _ Hin) in Hn. by injection Hn as <-.
Qed.

Lemma get_idempotent_witness :
  get layered_world "LATE" no_options blank_state =
    (Ok (JStr "deno"), with_cached "LATE" (JStr "deno") blank_state) /\
  get layered_world "LATE" no_options (with_cached "LATE" (JStr "deno") blank_state) =
    (Ok (JStr "deno"), with_cached "LATE" (JStr "deno") blank_state).
Proof.
  assert (get layered_world "LATE" no_options blank_state =
    (Ok (JStr "deno"), with_cached "LATE" (JStr "deno") blank_state)) as H.
  { rewrite get_first_hit. apply first_hit_stop; [|discriminate].
    rewrite tryGetValue_requery. reflexivity. }
  split; [exact H|]. exact (get_idempotent _ _ _ _ _ _ H).
Defined.



Lemma tryGetValue_readable (w : world) (key : string) (s : state) :
  readable (process_dot_env w) -> readable (import_meta_dot_env w) ->
  exists v s', tryGetValue w key s = (Ok v, s').
Proof.
  intros Hp Hm. rewrite tryGetValue_requery.
  destruct (envCache s !! key); [eauto|].
  destruct (requery_readable w key Hp Hm) as [[x|] ->]; eauto.
Qed.

Lemma first_hit_readable (w : world) (names : list string) (s : state) :
  readable (process_dot_env w) -> readable (import_meta_dot_env w) ->
  exists v s', first_hit w names s = (Ok v, s').
Proof.
  intros Hp Hm. revert s. induction names as [|name rest IH]; intros s; simpl.
  - unfold ret. eauto.
  - destruct (tryGetValue_readable w name s Hp Hm) as (v & s1 & H).
    rewrite (bind_Ok _ _ _ _ _ H). destruct (is_undefined v); [apply IH|].
    unfold ret. eauto.
Qed.

(** X3. [get] throws only what a read of [process.env] or of
    [import.meta.env] throws: when both can be read it returns, whatever
    [Deno] does; and when it throws, the cache is left as it was. *)
Theorem get_throws_only_hostile (w : world) (key : string)
    (options : ConfigOptions) (s : state) :
  (readable (process_dot_env w) -> readable (import_meta_dot_env w) ->
   exists v s', get w key options s = (Ok v, s')) /\
  (forall e s', get w key options s = (Throw e, s') -> s' = s).
Proof.
  split.
  - intros Hp Hm. rewrite get_first_hit. by apply first_hit_readable.
  - intros e s'. apply get_throw_state.
Qed.

Lemma get_throws_only_hostile_witness :
  (exists v s', get deno_denied_with_global "API_URL" no_options blank_state = (Ok v, s')) /\
  get half_readable_world "API_URL" no_options blank_state =
    (Throw permission_denied, blank_state).
Proof.
  split.
  - apply (proj1 (get_throws_only_hostile deno_denied_with_global "API_URL"
                    no_options blank_state)); by vm_compute.
  - assert (get half_readable_world "API_URL" no_options blank_state =
            (Throw permission_denied, blank_state)) as H.
    { rewrite get_first_hit. apply first_hit_stop; [|discriminate].
      rewrite tryGetValue_requery. reflexivity. }
    exact H.
Defined.

(** X4. Once the direct lookup of the effective key has found a value,
    [get] returns that value from then on, whatever the host has become:
    a later change of the variable, its removal, or a source that now
    throws is not seen. *)
Theorem get_serves_cached (w w' : world) (key : string) (options : ConfigOptions)
    (s s' : state) (v : jsval) :
  tryGetValue w (fullKey key options) s = (Ok v, s') -> v <> JUndefined ->
  get w key options s = (Ok v, s') /\
  get w' key options s' = (Ok v, s').
Proof.
  intros H Hv. split; [by apply get_direct_hit|].
  apply get_direct_hit; [|done]. by eapply tryGetValue_sticky.
Qed.

Lemma get_serves_cached_witness :
  get layered_world "LATE" no_options blank_state =
    (Ok (JStr "deno"), with_cached "LATE" (JStr "deno") blank_state) /\
  get deno_denied_world "LATE" no_options (with_cached "LATE" (JStr "deno") blank_state) =
    (Ok (JStr "deno"), with_cached "LATE" (JStr "deno") blank_state).
Proof.
  apply (get_serves_cached layered_world deno_denied_world "LATE" no_options
           blank_state); [|discriminate].
  rewrite tryGetValue_requery. reflexivity.
Defined.

(** X5. A hit of [get(key, {prefix})] is also what [get(prefix + key)]
    without options returns, with the same effect on the cache. *)
Theorem get_prefixed_as_plain (w : world) (key p : string) (s s' : state)
    (v : jsval) :
  get w key {| prefix := Some p |} s = (Ok v, s') -> v <> JUndefined ->
  get w (p +:+ key) no_options s = (Ok v, s').
Proof.
  intros H Hv. destruct p as [|c p].
  - exact H.
  - rewrite get_prefixed in H by done.
    by apply (get_direct_hit w (String c p +:+ key) no_options).
Qed.

Lemma get_prefixed_as_plain_witness :
  get vite_world "API_URL" {| prefix := Some "VITE_" |} vite_state =
    (Ok (JStr "foo"), vite_state) /\
  get vite_world ("VITE_" +:+ "API_URL") no_options vite_state =
    (Ok (JStr "foo"), vite_state).
Proof.
  assert (get vite_world "API_URL" {| prefix := Some "VITE_" |} vite_state =
            (Ok (JStr "foo"), vite_state)) as H.
  { rewrite get_prefixed by discriminate. by apply tryGetValue_cached. }
  split; [exact H|].
  apply (get_prefixed_as_plain vite_world "API_URL" "VITE_" _ _ _ H). discriminate.
Defined.

(** ** [getAll] *)

Lemma prefix_append (p rest : string) : String.prefix p (p +:+ rest) = true.
Proof.
  induction p as [|c p IH]; simpl; [by destruct rest|].
  destruct (ascii_dec c c); [done|congruence].
Qed.

Lemma prefix_split (p key : string) :
  String.prefix p key = true -> exists rest, key = p +:+ rest.
Proof.
  revert key. induction p as [|c p IH]; intros key; simpl.
  - intros _. by exists key.
  - destruct key as [|c' key]; simpl; [discriminate|].
    destruct (ascii_dec c c') as [<-|]; [|discriminate].
    intros H. destruct (IH _ H) as [rest ->]. by exists rest.
Qed.

Lemma prefix_shorter (p q key : string) :
  String.prefix (p +:+ q) key = true -> String.prefix p key = true.
Proof.
  revert key. induction p as [|c p IH]; intros key; simpl.
  - by destruct key.
  - destruct key as [|c' key]; simpl; [discriminate|].
    destruct (ascii_dec c c'); [apply IH|discriminate].
Qed.

Lemma getAll_keeps_shorter (p q key : string) :
  getAll_keeps (Some (p +:+ q)) key = true -> getAll_keeps (Some p) key = true.
Proof.
  unfold getAll_keeps, startsWith. destruct p as [|c p]; [done|]. simpl.
  destruct key as [|c' key]; simpl; [discriminate|].
  destruct (ascii_dec c c'); [apply prefix_shorter|discriminate].
Qed.

(** X6. [getAll(prefix)] never throws and leaves the state as it is.  It
    returns exactly the cached entries whose names start with the prefix,
    names and values unchanged; with no prefix, or with the empty one, it
    returns the whole cache. *)
Theorem getAll_spec (prefix : option string) (s : state) :
  exists all,
    getAll prefix s = (Ok all, s) /\
    (forall key v,
       all !! key = Some v <->
       envCache s !! key = Some v /\ getAll_keeps prefix key = true) /\
    (prefix = None \/ prefix = Some "" -> all = envCache s) /\
    (forall p key, prefix = Some p -> is_Some (all !! key) ->
       exists rest, key = p +:+ rest) /\
    (forall p rest v, prefix = Some p ->
       envCache s !! (p +:+ rest) = Some v -> all !! (p +:+ rest) = Some v).
Proof.
  eexists. split; [reflexivity|]. split; [|split; [|split]].
  - intros key v. by rewrite map_lookup_filter_Some.
  - intros [->| ->]; apply map_filter_id; by intros.
  - intros p key -> [v Hv]. apply map_lookup_filter_Some in Hv as [_ Hk].
    simpl in Hk. unfold getAll_keeps, startsWith in Hk.
    destruct p as [|c p]; [by exists key|]. by apply prefix_split.
  - intros p rest v -> Hc. apply map_lookup_filter_Some. split; [done|].
    simpl. unfold getAll_keeps, startsWith. rewrite prefix_append.
    by rewrite orb_true_r.
Qed.

(** X7. [getAll] narrows with the prefix: what [getAll(p + q)] returns is
    part of what [getAll(p)] returns, which is part of the cache. *)
Theorem getAll_narrows (p q : string) (s : state) :
  exists longer shorter,
    getAll (Some (p +:+ q)) s = (Ok longer, s) /\
    getAll (Some p) s = (Ok shorter, s) /\
    longer ⊆ shorter /\ shorter ⊆ envCache s.
Proof.
  eexists. eexists. split; [reflexivity|]. split; [reflexivity|]. split.
  - apply map_subseteq_spec. intros key v.
    rewrite !map_lookup_filter_Some. simpl. intros [Hc Hk].
    split; [done|]. by eapply getAll_keeps_shorter.
  - apply map_filter_subseteq.
Qed.


(** ** Agreement of the accessors *)

(** X9. [getRequired], [getWithDefault], [getTransformed] and [has] follow
    [get]: when [get] returns a defined value the first two return it, when
    it returns [undefined] they throw, give the default, give [undefined]
    and answer false, and when [get] throws they throw the same; in every
    case they leave the state that [get] leaves. *)
Theorem accessors_follow_get {T U} (w : world) (key : string)
    (options : ConfigOptions) (defaultValue : T)
    (transform : jsval -> outcome U) (s : state) :
  (forall v s', get w key options s = (Ok v, s') -> v <> JUndefined ->
     getRequired w key options s = (Ok v, s') /\
     getWithDefault w key defaultValue options s = (Ok (inl v), s') /\
     snd (getTransformed w key transform options s) = s' /\
     (options = no_options -> has w key s = (Ok true, s'))) /\
  (forall s', get w key options s = (Ok JUndefined, s') ->
     s' = s /\
     (exists e, getRequired w key options s = (Throw e, s)) /\
     getWithDefault w key defaultValue options s = (Ok (inr defaultValue), s) /\
     getTransformed w key transform options s = (Ok None, s) /\
     (options = no_options -> has w key s = (Ok false, s))) /\
  (forall e s', get w key options s = (Throw e, s') ->
     s' = s /\
     getRequired w key options s = (Throw e, s) /\
     getWithDefault w key defaultValue options s = (Throw e, s) /\
     getTransformed w key transform options s = (Throw e, s) /\
     (options = no_options -> has w key s = (Throw e, s))).
Proof.
  split; [|split].
  - intros v s' H Hv. pose proof Hv as Hu. apply is_undefined_false in Hu.
    split; [|split; [|split]].
    + unfold getRequired. rewrite (bind_Ok _ _ _ _ _ H). by rewrite Hu.
    + unfold getWithDefault. rewrite (bind_Ok _ _ _ _ _ H). unfold ret. by rewrite Hu.
    + unfold getTransformed. rewrite (bind_Ok _ _ _ _ _ H). rewrite Hu.
      unfold_monad. by destruct (transform v).
    + intros ->. unfold has. rewrite (bind_Ok _ _ _ _ _ H). unfold ret. by rewrite Hu.
  - intros s' H.
    assert (s' = s) as ->.
    { rewrite get_first_hit in H.
      destruct (first_hit_cases _ _ _ _ _ H) as [(_ & -> & _)|(? & ? & ? & _ & _ & _ & Hr)];
        done. }
    split; [done|]. split; [|split; [|split]].
    + eexists. unfold getRequired. by rewrite (bind_Ok _ _ _ _ _ H).
    + unfold getWithDefault. by rewrite (bind_Ok _ _ _ _ _ H).
    + by apply getTransformed_not_found.
    + intros ->. unfold has. by rewrite (bind_Ok _ _ _ _ _ H).
  - intros e s' H.
    assert (s' = s) as -> by by eapply get_throw_state.
    split; [done|]. split; [|split; [|split]].
    + unfold getRequired. by rewrite (bind_Throw _ _ _ _ _ H).
    + unfold getWithDefault. by rewrite (bind_Throw _ _ _ _ _ H).
    + by apply getTransformed_propagates.
    + intros ->. unfold has. by rewrite (bind_Throw _ _ _ _ _ H).
Qed.

Lemma accessors_follow_get_witness :
  getWithDefault vite_world "API_URL" 5000%Z no_options vite_state =
    (Ok (inl (JStr "foo")), vite_state) /\
  getWithDefault vite_world "TIMEOUT" 5000%Z no_options vite_state =
    (Ok (inr 5000%Z), vite_state) /\
  getWithDefault half_readable_world "TIMEOUT" 5000%Z no_options vite_state =
    (Throw permission_denied, vite_state).
Proof.
  split; [|split].
  - refine (proj1 (proj2 (proj1 (accessors_follow_get vite_world "API_URL" no_options
              5000%Z getNumber_transform vite_state) (JStr "foo") vite_state _ _))).
    + apply vite_state_get_API_URL.
    + discriminate.
  - refine (proj1 (proj2 (proj2 (proj1 (proj2 (accessors_follow_get vite_world
              "TIMEOUT" no_options 5000%Z getNumber_transform vite_state))
              vite_state _)))).
    apply get_all_miss. intros name Hin.
    repeat (apply elem_of_cons in Hin as [->|Hin]);
      [..|by apply elem_of_nil in Hin]; by vm_compute.
  - refine (proj1 (proj2 (proj2 (proj2 (proj2 (accessors_follow_get
              half_readable_world "TIMEOUT" no_options 5000%Z getNumber_transform
              vite_state)) permission_denied vite_state _)))).
    rewrite get_first_hit. apply first_hit_stop; [|discriminate].
    rewrite tryGetValue_requery. reflexivity.
Defined.

(** ** Booleans *)

Lemma toLowerCase_unit_idem (c : ascii) :
  toLowerCase_unit (toLowerCase_unit c) = toLowerCase_unit c.
Proof. by destruct c as [[] [] [] [] [] [] [] []]. Qed.

Lemma toLowerCase_idem (s : string) : toLowerCase (toLowerCase s) = toLowerCase s.
Proof.
  induction s as [|c s IH]; [done|]. simpl.
  by rewrite toLowerCase_unit_idem, IH.
Qed.

(** X10. When [get] finds a string, [getBoolean] never throws: it answers
    true exactly when the string, in lower case, is [true], [1], [yes] or
    [on], so two strings that differ in case only get the same answer.
    When [get] finds a value that is not a string, such as a boolean of
    [import.meta.env], [getBoolean] throws the transform failure for the
    prefixed key. *)
Theorem getBoolean_spec (w : world) (key : string) (options : ConfigOptions)
    (s s' : state) :
  (forall v, get w key options s = (Ok (JStr v), s') ->
     exists answer,
       getBoolean w key options s = (Ok (Some answer), s') /\
       (answer = true <-> toLowerCase v ∈ ["true"; "1"; "yes"; "on"]) /\
       forall v', toLowerCase v' = toLowerCase v ->
         getBoolean_transform (JStr v') = Ok answer) /\
  (forall b, get w key options s = (Ok (JBool b), s') ->
     getBoolean w key options s =
       (Throw (new_Error ("Failed to transform config value for key " +:+ dquote +:+
                          fullKey key options +:+ dquote +:+ ":")), s')).
Proof.
  split.
  - intros v H. eexists. split; [|split].
    + unfold getBoolean.
      by apply (getTransformed_returns _ _ _ _ _ _ (JStr v)).
    + rewrite !elem_of_cons, elem_of_nil.
      rewrite !orb_true_iff, !String.eqb_eq. tauto.
    + intros v' Hv'. simpl. by rewrite Hv'.
  - intros b H. unfold getBoolean.
    by rewrite (getTransformed_rethrows _ _ _ _ _ _ _ _ H ltac:(done) eq_refl).
Qed.

Lemma getBoolean_spec_witness :
  new_ConfigLoader vite_dev_world [] = (Ok tt, vite_dev_state) /\
  getBoolean vite_dev_world "DEBUG" no_options vite_dev_state =
    (Ok (Some true), vite_dev_state) /\
  getBoolean vite_dev_world "MODE" no_options vite_dev_state =
    (Ok (Some false), vite_dev_state) /\
  getBoolean vite_dev_world "DEV" no_options vite_dev_state =
    (Throw (new_Error ("Failed to transform config value for key " +:+ dquote +:+
                       "DEV" +:+ dquote +:+ ":")), vite_dev_state).
Proof.
  assert (other_sources_readable vite_dev_world) as Hr by by vm_compute.
  split; [exact (new_ConfigLoader_readable vite_dev_world [] Hr)|].
  split; [|split].
  - destruct (proj1 (getBoolean_spec vite_dev_world "DEBUG" no_options
                       vite_dev_state vite_dev_state) "Yes")
      as (answer & Hget & Hanswer & _).
    + rewrite get_no_prefix.
      apply (first_hit_only _ _ ("VITE_" +:+ "DEBUG")); [by right; left| |discriminate|].
      * apply tryGetValue_cached. by vm_compute.
      * intros name Hin Hne.
        repeat (apply elem_of_cons in Hin as [->|Hin]);
          [..|by apply elem_of_nil in Hin]; try done; by vm_compute.
    + rewrite Hget. do 3 f_equal. apply Hanswer. simpl. right. right. by left.
  - destruct (proj1 (getBoolean_spec vite_dev_world "MODE" no_options
                       vite_dev_state vite_dev_state) "development")
      as (answer & Hget & Hanswer & _).
    + apply get_cached. by vm_compute.
    + rewrite Hget. do 3 f_equal. destruct answer; [|done].
      pose proof (proj1 Hanswer eq_refl) as Hin. simpl in Hin.
      repeat (apply elem_of_cons in Hin as [Hin|Hin]; [discriminate Hin|]).
      by apply elem_of_nil in Hin.
  - apply (proj2 (getBoolean_spec vite_dev_world "DEV" no_options
                    vite_dev_state vite_dev_state) true).
    apply get_direct_hit; [|discriminate].
    apply tryGetValue_cached. by vm_compute.
Defined.

(** ** The runtime descriptor *)

(** X11. The flags of [#detectRuntime]: Node excludes every other flag; the
    Vite and Webpack flags are only set in a browser; without a window,
    Deno or Bun, a [process] global alone makes the runtime Node; and the
    Deno and browser flags do not exclude one another. *)
Theorem detectRuntime_flags (w : world) :
  (isNode (detectRuntime w) = true ->
   isBrowser (detectRuntime w) = false /\ isVite (detectRuntime w) = false /\
   isWebpack (detectRuntime w) = false /\ isDeno (detectRuntime w) = false /\
   isBun (detectRuntime w) = false) /\
  (isVite (detectRuntime w) = true -> isBrowser (detectRuntime w) = true) /\
  (isWebpack (detectRuntime w) = true -> isBrowser (detectRuntime w) = true) /\
  (is_Some (g_process w) -> g_window w = None -> g_Deno w = None -> g_Bun w = false ->
   isNode (detectRuntime w) = true) /\
  (is_Some (g_Deno w) -> is_Some (g_window w) ->
   isDeno (detectRuntime w) = true /\ isBrowser (detectRuntime w) = true /\
   isNode (detectRuntime w) = false).
Proof.
  unfold detectRuntime. simpl.
  destruct (g_process w) as [p|], (g_window w) as [win|], (g_Deno w) as [d|],
    (g_Bun w), (g_importMeta w), (g_import_meta w) as [im|]; simpl;
    repeat split; try done; try (intros [? [=]]); try (intros _ [? [=]]);
    try (by intros [? ?]); eauto.
Qed.

Lemma detectRuntime_flags_witness :
  isNode (detectRuntime vite_world) = true /\
  isBrowser (detectRuntime vite_world) = false /\
  isVite (detectRuntime vite_dev_world) = true /\
  isBrowser (detectRuntime vite_dev_world) = true.
Proof.
  assert (isNode (detectRuntime vite_world) = true) as Hn
    by (apply (proj1 (proj2 (proj2 (proj2 (detectRuntime_flags vite_world)))));
        by eauto).
  split; [exact Hn|].
  split; [exact (proj1 (proj1 (detectRuntime_flags vite_world) Hn))|].
  split; [reflexivity|].
  exact (proj1 (proj2 (detectRuntime_flags vite_dev_world)) eq_refl).
Defined.

(** ** What [refresh] leaves, also when it fails *)









(** ** Reads and the cache *)

Lemma grows_getWithDefault {T} (w : world) (key : string) (defaultValue : T)
    (options : ConfigOptions) :
  grows (getWithDefault w key defaultValue options).
Proof.
  unfold getWithDefault. apply grows_bind; [apply grows_get|].
  intros v. apply grows_ret.
Qed.

Lemma grows_getBoolean (w : world) (key : string) (options : ConfigOptions) :
  grows (getBoolean w key options).
Proof. apply grows_getTransformed. Qed.

Lemma grows_getAll (prefix : option string) : grows (getAll prefix).
Proof. intros s r s' [= <- <-]. apply cache_grows_refl. Qed.

(** X13. The reading methods, [get], [has], [getRequired],
    [getWithDefault], [getTransformed], [getBoolean], [getNumber] and
    [getAll], whether they return or throw, never remove a cached entry,
    never change the value of one and never touch the runtime descriptor:
    all they may do is cache names that were not cached. *)
Theorem reads_only_add {T U} (w : world) (key : string) (options : ConfigOptions)
    (defaultValue : T) (transform : jsval -> outcome U) (prefix : option string) :
  grows (get w key options) /\
  grows (has w key) /\
  grows (getRequired w key options) /\
  grows (getWithDefault w key defaultValue options) /\
  grows (getTransformed w key transform options) /\
  grows (getBoolean w key options) /\
  grows (getNumber w key options) /\
  grows (getAll prefix).
Proof.
  split; [apply grows_get|]. split; [apply grows_has|].
  split; [apply grows_getRequired|]. split; [apply grows_getWithDefault|].
  split; [apply grows_getTransformed|]. split; [apply grows_getBoolean|].
  split; [apply grows_getNumber|apply grows_getAll].
Qed.

(** ** The descriptor through a client's history *)

Lemma grows_frame {A} (m : M A) (s : state) :
  grows m ->
  heap (snd (m s)) = heap s /\ runtimeDetection (snd (m s)) = runtimeDetection s.
Proof.
  intros Hm. destruct (m s) as [r s'] eqn:E. simpl.
  by destruct (Hm _ _ _ E) as (? & ? & _).
Qed.

Lemma client_step_keeps (d : RuntimeDetection) (c : client_call) (cl : client) :
  heap (instance cl) !! runtimeDetection (instance cl) = Some d ->
  runtimeDetection (instance cl) ∉ held cl ->
  runtimeDetection (instance (client_step c cl)) = runtimeDetection (instance cl) /\
  heap (instance (client_step c cl)) !! runtimeDetection (instance cl) = Some d /\
  runtimeDetection (instance cl) ∉ held (client_step c cl).
Proof.
  intros Hlive Hheld.
  assert (forall A (m : M A), grows m ->
            runtimeDetection (snd (m (instance cl))) = runtimeDetection (instance cl) /\
            heap (snd (m (instance cl))) !! runtimeDetection (instance cl) = Some d)
    as Hgrows.
  { intros A m Hm. destruct (grows_frame m (instance cl) Hm) as [Hh Hf].
    by rewrite Hh, Hf. }
  destruct c as [c|w|p|w key dv options|w key options|address r]; simpl.
  - destruct c as [w key options|w key|w key options|w key options
                  |w key transform options|key value|]; simpl.
    + by destruct (Hgrows _ _ (grows_get w key options)).
    + by destruct (Hgrows _ _ (grows_has w key)).
    + by destruct (Hgrows _ _ (grows_getRequired w key options)).
    + by destruct (Hgrows _ _ (grows_getNumber w key options)).
    + by destruct (Hgrows _ _ (grows_getTransformed w key transform options)).
    + done.
    + unfold getRuntime. rewrite Hlive. simpl. split; [done|]. split.
      * by apply lookup_app_l_Some.
      * apply not_elem_of_cons. split; [|done].
        apply lookup_lt_Some in Hlive. lia.
  - destruct (refresh w (instance cl)) as [r s'] eqn:E. simpl.
    destruct (refresh_frame _ _ _ _ E) as [Hh Hf]. by rewrite Hh, Hf.
  - done.
  - by destruct (Hgrows _ _ (grows_getWithDefault w key dv options)).
  - by destruct (Hgrows _ _ (grows_getBoolean w key options)).
  - destruct (bool_decide (address ∈ held cl)) eqn:Hb; simpl; [|done].
    apply bool_decide_eq_true in Hb. split; [done|]. split; [|done].
    rewrite list_lookup_insert_ne; [done|]. by intros ->.
Qed.

Lemma client_run_keeps (d : RuntimeDetection) (calls : list client_call)
    (cl : client) :
  heap (instance cl) !! runtimeDetection (instance cl) = Some d ->
  runtimeDetection (instance cl) ∉ held cl ->
  runtimeDetection (instance (client_run calls cl)) = runtimeDetection (instance cl) /\
  heap (instance (client_run calls cl)) !! runtimeDetection (instance cl) = Some d /\
  runtimeDetection (instance cl) ∉ held (client_run calls cl).
Proof.
  revert cl. induction calls as [|c calls IH]; intros cl Hlive Hheld; [done|].
  simpl. destruct (client_step_keeps d c cl Hlive Hheld) as (Hf & Hl & Hh).
  destruct (IH (client_step c cl)) as (Hf' & Hl' & Hh'); [by rewrite Hf..|].
  rewrite Hf in Hf', Hl', Hh'. done.
Qed.

(** X14. Whatever a client does with a new instance, calling its methods,
    [refresh] included, in any hosts and writing into the descriptors that
    [getRuntime] gave it or that existed before, the instance's own
    descriptor is the one computed by the constructor: the client never
    holds its address, and [getRuntime] keeps returning a fresh object
    equal to it. *)
Theorem runtime_encapsulated (w0 : world) (h : list RuntimeDetection)
    (s0 : state) (calls : list client_call) :
  new_ConfigLoader w0 h = (Ok tt, s0) ->
  (heap (instance (client_run calls (new_client h s0))))
    !! (runtimeDetection (instance (client_run calls (new_client h s0)))) =
    Some (detectRuntime w0) /\
  (runtimeDetection (instance (client_run calls (new_client h s0)))
     ∉ held (client_run calls (new_client h s0))) /\
  exists s',
    getRuntime (instance (client_run calls (new_client h s0))) =
      (Ok (length (heap (instance (client_run calls (new_client h s0))))), s') /\
    (heap s') !! (length (heap (instance (client_run calls (new_client h s0))))) =
      Some (detectRuntime w0).
Proof.
  intros Hnew. destruct (new_ConfigLoader_descriptor _ _ _ _ Hnew) as [Hh Hf].
  destruct (client_run_keeps (detectRuntime w0) calls (new_client h s0))
    as (Hf' & Hl' & Hh').
  { simpl. rewrite Hh, Hf. by apply list_lookup_middle. }
  { simpl. rewrite Hf. intros Hin. apply elem_of_seq in Hin. lia. }
  rewrite Hf'. split; [done|]. split; [done|].
  rewrite <- Hf' in Hl'.
  destruct (getRuntime_copy _ _ Hl') as (s' & H1 & _ & H3 & _). eauto.
Qed.

Lemma vite_state_new : new_ConfigLoader vite_world [] = (Ok tt, vite_state).
Proof. by vm_compute. Qed.

Lemma runtime_encapsulated_witness :
  (heap (instance (client_run
     [Method CallGetRuntime;
      WriteDescriptor 1 (detectRuntime vite_dev_world);
      MethodRefresh vite_dev_world;
      Method (CallSet "K" "v");
      WriteDescriptor 0 (detectRuntime vite_dev_world)]
     (new_client [] vite_state))))
    !! (runtimeDetection (instance (client_run
     [Method CallGetRuntime;
      WriteDescriptor 1 (detectRuntime vite_dev_world);
      MethodRefresh vite_dev_world;
      Method (CallSet "K" "v");
      WriteDescriptor 0 (detectRuntime vite_dev_world)]
     (new_client [] vite_state)))) = Some (detectRuntime vite_world).
Proof.
  exact (proj1 (runtime_encapsulated vite_world [] vite_state _ vite_state_new)).
Defined.

(** ** The snapshot taken by the constructor *)



(** ** What [set] leaves alone *)



